(** * fileParser: a verified model of the parse-normalize-merge pipeline

    Shallow embedding of [src/fileParser.py] (class [FileParser]).

    - A column store ([columns], [self.data_list]) is a Python dict from
      column name to a list of strings.  Python dicts iterate in insertion
      order and the output header depends on that order, so a store is an
      association list kept in insertion order.
    - Exceptions are explicit: a call that may raise returns a [result].
    - The worker threads are a step relation over the shared queue.

    The CSV reader ([csv.DictReader]) and writer ([csv.writer]) are library
    code: the store filled by the read loop of [csv_parser] is an input of
    the model (cells are strings, i.e. the table is rectangular), and the
    written file is the list of its rows. *)

From Stdlib Require Import Ascii String ZArith Lia.
From Equations Require Import Equations.
From stdpp Require Import base list strings.

Open Scope string_scope.
Open Scope list_scope.

(** ** Python dicts in insertion order *)

Module Dict.

Abbreviation t V := (list (string * V)) (only parsing).

Section Ops.
Context {V : Type}.

(** [d.get(k, None)] *)
Fixpoint get (k : string) (d : t V) : option V :=
  match d with
  | [] => None
  | (k', v) :: d' => if decide (k = k') then Some v else get k d'
  end.

(** [k in d] *)
Definition mem (k : string) (d : t V) : bool :=
  match get k d with Some _ => true | None => false end.

(** [d[k] = v]: an existing key keeps its position, a new key goes last. *)
Fixpoint set (k : string) (v : V) (d : t V) : t V :=
  match d with
  | [] => [(k, v)]
  | (k', v') :: d' =>
      if decide (k = k') then (k, v) :: d' else (k', v') :: set k v d'
  end.

(** [del d[k]] (the source deletes only keys it has just found). *)
Definition del (k : string) (d : t V) : t V :=
  filter (fun kv => kv.1 ≠ k) d.

(** [d.keys()] and [d.items()] *)
Definition keys (d : t V) : list string := d.*1.
Definition items (d : t V) : list (string * V) := d.

(** [not d]: a dict is falsy exactly when it has no key. *)
Definition is_empty (d : t V) : bool :=
  match d with [] => true | _ => false end.

(** A Python dict holds each key once. *)
Definition wf (d : t V) : Prop := NoDup (keys d).
End Ops.

End Dict.

(** A column store: column name to the column's values in row order. *)
Abbreviation store := (list (string * list string)) (only parsing).

(** Truthiness of [columns.get(k, None)]: a present, non-empty list. *)
Definition truthy (o : option (list string)) : bool :=
  match o with
  | Some (_ :: _) => true
  | _ => false
  end.

(** The list read by [columns.get(k)] where the source has tested it truthy. *)
Definition get_list (k : string) (c : store) : list string :=
  default [] (Dict.get k c).

(** [columns[k]] on a [defaultdict(list)]: a missing key is created with an
    empty list, at the end of the dict, and that list is returned. *)
Definition dd_getitem (k : string) (c : store) : list string * store :=
  match Dict.get k c with
  | Some v => (v, c)
  | None => ([], c ++ [(k, [])])
  end.

(** ** Schema normalization, lines 95-115 of [csv_parser] *)

(** ['{}.{}'.format(k, y)] on two strings *)
Definition format_amount (k y : string) : string := k +:+ "." +:+ y.

(** [[f(k, y) for k, y in zip(xs, ys)]]: [zip] stops at the shorter list. *)
Fixpoint zip_format (xs ys : list string) : list string :=
  match xs, ys with
  | k :: xs', y :: ys' => format_amount k y :: zip_format xs' ys'
  | _, _ => []
  end.

(** Lines 96-99. *)
Definition combine_euro_cents (columns : store) : store :=
  if truthy (Dict.get "euro" columns) && truthy (Dict.get "cents" columns) then
    let columns1 :=
      Dict.set "amount"
        (zip_format (get_list "euro" columns) (get_list "cents" columns))
        columns in
    let columns2 := Dict.del "euro" columns1 in
    Dict.del "cents" columns2
  else columns.

(** The shape shared by lines 101-103, 105-107, 109-111 and 113-115:
    [if columns.get(src, None): columns[dst] = columns.get(src, None);
     del columns[src]]. *)
Definition move_column (src dst : string) (columns : store) : store :=
  if truthy (Dict.get src columns) then
    Dict.del src (Dict.set dst (get_list src columns) columns)
  else columns.

(** Lines 96-115: five independent [if] statements, in this order. *)
Definition normalize (columns : store) : store :=
  let c1 := combine_euro_cents columns in
  let c2 := move_column "timestamp" "date" c1 in
  let c3 := move_column "date_readable" "date" c2 in
  let c4 := move_column "type" "transaction" c3 in
  move_column "amounts" "amount" c4.

(** ** [datetime.strptime] and [strftime] for the three formats of line 119

    [strptime] is CPython library code ([Lib/_strptime.py]): the format is
    turned into a regular expression, [re.match] runs it with backtracking
    and [IGNORECASE], the first match must end at the end of the data, and
    the date built from the groups must be a valid calendar date; every
    failure is a [ValueError].  Strings are sequences of code points below
    256 and month names are those of the C locale. *)

Module Strptime.

Definition code (c : ascii) : nat := nat_of_ascii c.

Definition in_range (lo hi c : ascii) : bool :=
  ((code lo <=? code c) && (code c <=? code hi))%nat.

(** [\d] *)
Definition is_digit (c : ascii) : bool := in_range "0" "9" c.

(** [\s]: the white space of [str.isspace] below 256 *)
Definition is_space (c : ascii) : bool :=
  in_range "009" "013" c || in_range "028" " " c
  || (code c =? 133)%nat || (code c =? 160)%nat.

Local Open Scope Z_scope.

(** [int] of one decimal digit *)
Definition digit (c : ascii) : Z := Z.of_nat (code c) - Z.of_nat (code "0").

(** Case folding under [IGNORECASE], for the ASCII letters. *)
Definition lower (c : ascii) : ascii :=
  if in_range "A" "Z" c then ascii_of_nat (code c + 32)%nat else c.

(** *** Backtracking matchers

    A matcher lists every way to match a prefix of the data, in the
    order in which the regex engine tries them, with what is left. *)
Definition matcher (A : Type) : Type := string -> list (A * string).

Definition m_ret {A} (a : A) : matcher A := fun s => [(a, s)].

Definition m_bind {A B} (m : matcher A) (f : A -> matcher B) : matcher B :=
  fun s => flat_map (fun '(a, s') => f a s') (m s).

Definition m_alt {A} (m1 m2 : matcher A) : matcher A :=
  fun s => m1 s ++ m2 s.

Definition m_fail {A} : matcher A := fun _ => [].

Definition m_char (p : ascii -> bool) : matcher ascii :=
  fun s =>
    match s with
    | String c s' => if p c then [(c, s')] else []
    | EmptyString => []
    end.

(** [r1|r2|...]: the alternatives are tried from left to right. *)
Definition m_alts {A} (ms : list (matcher A)) : matcher A :=
  fun s => flat_map (fun m => m s) ms.

Notation "'let*' x ':=' m 'in' k" := (m_bind m (fun x => k))
  (at level 10, x name, m at level 100, k at level 200).

Definition is_char (a : ascii) : ascii -> bool :=
  fun c => bool_decide (c = a).

(** A literal word, case-insensitively. *)
Fixpoint m_word (w : string) : matcher unit :=
  match w with
  | EmptyString => m_ret tt
  | String a w' =>
      let* _ := m_char (fun c => bool_decide (lower c = a)) in m_word w'
  end.

(** [\s+], greedy: the longest run first, then shorter ones. *)
Fixpoint m_spaces (s : string) : list (unit * string) :=
  match s with
  | String c s' => if is_space c then m_spaces s' ++ [(tt, s')] else []
  | EmptyString => []
  end.

(** [%d]: [(?P<d>3[0-1]|[1-2]\d|0[1-9]|[1-9]| [1-9])], read by [int]. *)
Definition re_d : matcher Z :=
  m_alts
    [ (let* a := m_char (is_char "3") in
       let* b := m_char (in_range "0" "1") in
       m_ret (10 * digit a + digit b));
      (let* a := m_char (in_range "1" "2") in
       let* b := m_char is_digit in
       m_ret (10 * digit a + digit b));
      (let* _ := m_char (is_char "0") in
       let* b := m_char (in_range "1" "9") in
       m_ret (digit b));
      (let* b := m_char (in_range "1" "9") in m_ret (digit b));
      (let* _ := m_char (is_char " ") in
       let* b := m_char (in_range "1" "9") in
       m_ret (digit b)) ].

(** [%m]: [(?P<m>1[0-2]|0[1-9]|[1-9])] *)
Definition re_m : matcher Z :=
  m_alts
    [ (let* a := m_char (is_char "1") in
       let* b := m_char (in_range "0" "2") in
       m_ret (10 * digit a + digit b));
      (let* _ := m_char (is_char "0") in
       let* b := m_char (in_range "1" "9") in
       m_ret (digit b));
      (let* b := m_char (in_range "1" "9") in m_ret (digit b)) ].

(** [%Y]: [(?P<Y>\d\d\d\d)] *)
Definition re_Y : matcher Z :=
  let* a := m_char is_digit in
  let* b := m_char is_digit in
  let* c := m_char is_digit in
  let* d := m_char is_digit in
  m_ret (1000 * digit a + 100 * digit b + 10 * digit c + digit d).

(** [calendar.month_abbr[1:]], lower-cased *)
Definition a_month : list string :=
  ["jan"; "feb"; "mar"; "apr"; "may"; "jun";
   "jul"; "aug"; "sep"; "oct"; "nov"; "dec"].

(** [%b]: [(?P<b>jan|feb|...|dec)]; the group gives the month number. *)
Fixpoint re_names (i : Z) (names : list string) : matcher Z :=
  match names with
  | [] => m_fail
  | w :: names' =>
      m_alt (let* _ := m_word w in m_ret i) (re_names (i + 1) names')
  end.

Definition re_b : matcher Z := re_names 1 a_month.

(** The pieces of a format string. *)
Inductive directive : Type :=
| Pct_b | Pct_d | Pct_m | Pct_Y
| Blank                (* white space in the format: [\s+] *)
| Lit (c : ascii).     (* any other character, matched as it is *)

Record date : Type := mk_date { year : Z; month : Z; day : Z }.

(** The regex of a format, filling the fields found so far. *)
Fixpoint regex (fmt : list directive) (acc : date) : matcher date :=
  match fmt with
  | [] => m_ret acc
  | Pct_b :: fmt' =>
      let* b := re_b in regex fmt' (mk_date (year acc) b (day acc))
  | Pct_d :: fmt' =>
      let* d := re_d in regex fmt' (mk_date (year acc) (month acc) d)
  | Pct_m :: fmt' =>
      let* m := re_m in regex fmt' (mk_date (year acc) m (day acc))
  | Pct_Y :: fmt' =>
      let* y := re_Y in regex fmt' (mk_date y (month acc) (day acc))
  | Blank :: fmt' => let* _ := m_spaces in regex fmt' acc
  | Lit c :: fmt' => let* _ := m_char (is_char c) in regex fmt' acc
  end.

Definition is_leap (y : Z) : bool :=
  (y mod 4 =? 0) && (negb (y mod 100 =? 0) || (y mod 400 =? 0)).

Definition days_in_month (y m : Z) : Z :=
  match m with
  | 2 => if is_leap y then 29 else 28
  | 4 | 6 | 9 | 11 => 30
  | _ => 31
  end.

(** The check made by [datetime.date(year, month, day)]. *)
Definition valid_date (d : date) : bool :=
  (1 <=? year d) && (year d <=? 9999)
  && (1 <=? month d) && (month d <=? 12)
  && (1 <=? day d) && (day d <=? days_in_month (year d) (month d)).

(** [datetime.strptime(data_string, fmt)]; [None] is a [ValueError]. *)
Definition strptime (data_string : string) (fmt : list directive)
  : option date :=
  match regex fmt (mk_date 1900 1 1) data_string with
  | [] => None                       (* does not match the format *)
  | (d, rest) :: _ =>
      match rest with
      | EmptyString => if valid_date d then Some d else None
      | String _ _ => None           (* unconverted data remains *)
      end
  end.

Definition digit_char (n : Z) : ascii :=
  ascii_of_nat (code "0" + Z.to_nat (n mod 10))%nat.

Definition pad2 (n : Z) : string :=
  String (digit_char (n / 10)) (String (digit_char n) EmptyString).

(** Years below 1000 are rendered as the platform's C library does; the
    model pads them to four digits. *)
Definition pad4 (n : Z) : string := pad2 (n / 100) +:+ pad2 n.

(** [date_obj.strftime('%d-%m-%Y')] *)
Definition strftime (d : date) : string :=
  pad2 (day d) +:+ "-" +:+ pad2 (month d) +:+ "-" +:+ pad4 (year d).

(** ['%b %d %Y'], ['%d %b %Y'] and ['%d-%m-%Y'] *)
Definition fmt_b_d_Y : list directive := [Pct_b; Blank; Pct_d; Blank; Pct_Y].
Definition fmt_d_b_Y : list directive := [Pct_d; Blank; Pct_b; Blank; Pct_Y].
Definition fmt_d_m_Y : list directive :=
  [Pct_d; Lit "-"; Pct_m; Lit "-"; Pct_Y].

End Strptime.

Import Strptime.

(** ** Date canonicalization, lines 117-125 of [csv_parser] *)

(** The tuple iterated by the inner [for] of line 119. *)
Definition date_formats : list (list directive) :=
  [fmt_b_d_Y; fmt_d_b_Y; fmt_d_m_Y].

(** Lines 120-124, one iteration: [try ... append ... except ValueError:
    pass].  There is no [break]: the loop goes on after a success. *)
Definition try_format (row : string) (date_list : list string)
    (fmt : list directive) : list string :=
  match strptime row fmt with
  | Some date_obj => date_list ++ [strftime date_obj]
  | None => date_list
  end.

(** Lines 119-124: the inner loop over the formats. *)
Definition try_formats (row : string) (date_list : list string) : list string :=
  fold_left (try_format row) date_formats date_list.

(** Lines 117-124: [date_list] after the loop over the rows. *)
Definition canonical_dates (rows : list string) : list string :=
  fold_left (fun date_list row => try_formats row date_list) rows [].

(** Lines 117-125: the rows are read through [columns['date']] (which
    creates the key on a [defaultdict]) and the key is then rebound. *)
Definition canonicalize (columns : store) : store :=
  let '(rows, columns1) := dd_getitem "date" columns in
  Dict.set "date" (canonical_dates rows) columns1.

(** Lines 95-125: the per-file store built from what the reader filled. *)
Definition file_columns (raw : store) : store := canonicalize (normalize raw).

(** ** Merge into the shared aggregate, lines 127-132 *)

(** [data_list[i].extend(j)] for a key [i] of [data_list] *)
Fixpoint extend (i : string) (j : list string) (data_list : store) : store :=
  match data_list with
  | [] => []
  | (k, v) :: d' =>
      if decide (i = k) then (k, v ++ j) :: d' else (k, v) :: extend i j d'
  end.

(** Lines 130-132, one iteration. *)
Definition merge_item (data_list : store) (item : string * list string) : store :=
  let '(i, j) := item in
  if Dict.mem i data_list then extend i j data_list else data_list.

(** Lines 127-132. *)
Definition merge (data_list columns : store) : store :=
  if Dict.is_empty data_list then columns
  else fold_left merge_item (Dict.items columns) data_list.

(** ** Dispatch and the worker loop *)

Inductive exn : Type :=
| Exception (msg : string)     (* [raise Exception(msg)] *)
| OSError (filename : string). (* [open] failed *)

Inductive result (A : Type) : Type :=
| Ok (a : A)
| Raise (e : exn).
Arguments Ok {A} a.
Arguments Raise {A} e.

(** [s.endswith(suffix)]: some tail of [s] is [suffix]. *)
Fixpoint endswith (s suffix : string) : bool :=
  bool_decide (s = suffix)
  || match s with
     | EmptyString => false
     | String _ s' => endswith s' suffix
     end.

Section Files.

(** What lines 89-94 of [csv_parser] leave in [columns] for a file name;
    [None] when the file cannot be opened. *)
Variable read_csv : string -> option store.

(** [csv_parser]: the new value of [self.data_list]. *)
Definition csv_parser (filename : string) (data_list : store) : result store :=
  match read_csv filename with
  | None => Raise (OSError filename)
  | Some columns => Ok (merge data_list (file_columns columns))
  end.

(** [file_parser_factory_method], lines 73-82. *)
Definition file_parser_factory_method (filename : string) (data_list : store)
  : result store :=
  if endswith filename ".csv" then csv_parser filename data_list
  else if endswith filename ".xml" then Ok data_list
  else if endswith filename ".json" then Ok data_list
  else Raise (Exception "Error. Cannot parse this type of file.").

(** [process_queued_files] run by one thread on its own: the files are
    taken from the front of the queue until it is empty; an exception
    leaves the loop with the rest of the queue and the aggregate as the
    failing call left them. *)
Fixpoint process_queued_files (file_queue : list string) (data_list : store)
  : result unit * (list string * store) :=
  match file_queue with
  | [] => (Ok tt, ([], data_list))
  | filename :: file_queue' =>
      match file_parser_factory_method filename data_list with
      | Ok data_list' => process_queued_files file_queue' data_list'
      | Raise e => (Raise e, (file_queue', data_list))
      end
  end.

End Files.

(** ** The output writer, [generate_csv] *)

Section ZipLongest.
Context {A : Type}.

Definition exhausted (it : list A) : bool :=
  match it with [] => true | _ => false end.

Definition total_length (its : list (list A)) : nat :=
  foldr (fun it n => (length it + n)%nat) 0%nat its.

(** [itertools.zip_longest] over the iterators [its]: as long as some iterator still has a
    value a tuple is yielded, with [None] for the exhausted ones. *)
Equations? zip_longest (its : list (list A)) : list (list (option A))
  by wf (total_length its) lt :=
  zip_longest its with Sumbool.sumbool_of_bool (forallb exhausted its) := {
    | left _ => [];
    | right H => (head <$> its) :: zip_longest (tail <$> its) }.
Proof.
  clear zip_longest. revert H.
  induction its as [|it its IH]; [discriminate|].
  assert (Hle : forall l : list (list A),
             (total_length (tail <$> l) <= total_length l)%nat).
  { induction l as [|[|y it'] l IHl]; unfold total_length in *;
      cbn in *; lia. }
  destruct it as [|x it]; unfold total_length in *; cbn in *.
  - exact IH.
  - intros _. specialize (Hle its). lia.
Qed.

End ZipLongest.

(** [csv.writer] writes [None] as an empty field. *)
Definition field (cell : option string) : string := default "" cell.

(** [generate_csv]: the rows written to ['bank_unified_data.csv'], the
    header first. *)
Definition generate_csv (data_list : store) : list (list string) :=
  let keys : list string := Dict.keys data_list in
  let csvrows : list (list (option string)) :=
    zip_longest ((fun k => get_list k data_list) <$> keys) in
  keys :: (fmap (M := list) field <$> csvrows).

(** ** The worker threads of [run], lines 157-166

    [run] queues the files and starts one thread per queued file, each
    running [process_queued_files]; then it joins them all.  A thread acts
    on the shared queue only through [file_queue.get(block=False)], which
    [queue.Queue] makes atomic.  An interleaving is a schedule: which
    thread moves next, and, when that thread is inside
    [file_parser_factory_method], whether the call raises. *)

Module Pool.

Inductive thread : Type :=
| Polling                        (* about to call [file_queue.get] *)
| Calling (filename : string)    (* in [file_parser_factory_method] *)
| Returned                       (* left the loop on [queue.Empty] *)
| Failed.                        (* ended by an exception of the call *)

Record state : Type := mk_state {
  file_queue : list string;      (* [self.file_queue], front first *)
  threads : list thread;
  handled : list string          (* arguments of the calls made so far *)
}.

(** One move of thread [i]. *)
Definition step (i : nat) (raises : bool) (st : state) : option state :=
  match threads st !! i with
  | Some Polling =>
      match file_queue st with
      | [] =>
          Some (mk_state [] (<[i := Returned]> (threads st)) (handled st))
      | filename :: file_queue' =>
          Some (mk_state file_queue'
                  (<[i := Calling filename]> (threads st)) (handled st))
      end
  | Some (Calling filename) =>
      Some (mk_state (file_queue st)
              (<[i := if raises then Failed else Polling]> (threads st))
              (handled st ++ [filename]))
  | Some Returned | Some Failed | None => None
  end.

(** A schedule, run from a state; [None] when it names a thread that
    cannot move. *)
Fixpoint exec (schedule : list (nat * bool)) (st : state) : option state :=
  match schedule with
  | [] => Some st
  | (i, raises) :: schedule' =>
      match step i raises st with
      | Some st' => exec schedule' st'
      | None => None
      end
  end.

(** Lines 157-163: the queue is filled from [file_list] and
    [file_queue.qsize()] threads are started. *)
Definition init (file_list : list string) : state :=
  mk_state file_list (replicate (length file_list) Polling) [].

Definition ended (t : thread) : bool :=
  match t with
  | Returned | Failed => true
  | Polling | Calling _ => false
  end.

(** Lines 165-166: every [thread.join()] has returned. *)
Definition joined (st : state) : bool := forallb ended (threads st).

End Pool.

(** ** The file list, lines 28-34 of [__init__] *)

(** [s.split(sep)] for a one-character separator: the pieces between the
    separators, empty ones included; never an empty list. *)
Fixpoint split (sep : ascii) (s : string) : list string :=
  match s with
  | EmptyString => [EmptyString]
  | String c s' =>
      if decide (c = sep) then EmptyString :: split sep s'
      else
        match split sep s' with
        | piece :: pieces => String c piece :: pieces
        | [] => [String c EmptyString]
        end
  end.

(** Lines 28-34: [args.filepath] is [None] when the option is absent; an
    absent or empty value raises, otherwise the value is split at the
    commas ([self.file_list]). *)
Definition file_list_of_args (filepath : option string) : result (list string) :=
  match filepath with
  | None | Some EmptyString =>
      Raise (Exception "Please provide the filepath for parsing.")
  | Some (String _ _ as fp) =>
      match split "," fp with
      | [] => Ok [fp]
      | file_list => Ok file_list
      end
  end.

(** ** Reference functions, used to state the properties *)

(** The first format of a list under which a value parses. *)
Fixpoint first_parse (fmts : list (list directive)) (row : string) : option date :=
  match fmts with
  | [] => None
  | fmt :: fmts' =>
      match strptime row fmt with
      | Some d => Some d
      | None => first_parse fmts' row
      end
  end.

(** The canonical form of one value: that of the first format that parses
    it, if any. *)
Definition canonical_date (row : string) : option string :=
  strftime <$> first_parse date_formats row.

(** The first character of the data decides between ['%b %d %Y'] and the
    two formats that start with [%d]. *)
Definition letter_first (s : string) : bool :=
  match s with
  | String c _ => in_range "a" "z" (lower c)
  | EmptyString => false
  end.

(** [sep.join(pieces)] *)
Fixpoint join (sep : string) (pieces : list string) : string :=
  match pieces with
  | [] => EmptyString
  | [piece] => piece
  | piece :: pieces' => piece +:+ sep +:+ join sep pieces'
  end.

(** How often a character occurs in a string. *)
Fixpoint count_char (a : ascii) (s : string) : nat :=
  match s with
  | EmptyString => 0%nat
  | String c s' => ((if decide (c = a) then 1 else 0) + count_char a s')%nat
  end.

(** Every column of a store has [n] values. *)
Definition rectangular (n : nat) (d : store) : Prop :=
  Forall (fun kv => length kv.2 = n) d.

(** Column [c] of some written rows. *)
Definition column (c : nat) (rows : list (list string)) : list string :=
  (fun row => default "" (row !! c)) <$> rows.

(** The stores of some files, as [csv_parser] merges them in turn. *)
Definition merge_all (stores : list store) (data_list : store) : store :=
  fold_left merge stores data_list.

(** The store a file name contributes when its call returns: that of a
    readable [.csv] file, nothing otherwise. *)
Definition contribution (read_csv : string -> option store) (filename : string)
  : option store :=
  if endswith filename ".csv" then file_columns <$> read_csv filename else None.

(** No rule of the normalization applies: no non-empty column under an
    alias name, and not both a non-empty ["euro"] and ["cents"] column. *)
Definition alias_free (columns : store) : Prop :=
  truthy (Dict.get "euro" columns) && truthy (Dict.get "cents" columns) = false
  /\ truthy (Dict.get "timestamp" columns) = false
  /\ truthy (Dict.get "date_readable" columns) = false
  /\ truthy (Dict.get "type" columns) = false
  /\ truthy (Dict.get "amounts" columns) = false.

(** The column names the normalization reads or writes. *)
Definition reserved_names : list string :=
  ["euro"; "cents"; "amount"; "timestamp"; "date_readable"; "date";
   "type"; "transaction"; "amounts"].

(** The length of the longest of some sequences. *)
Definition max_length {A : Type} (its : list (list A)) : nat :=
  foldr (fun it n => Nat.max (length it) n) 0%nat its.

(** What the threads of a pool hold and how far they are. *)
Module PoolView.
Import Pool.

(** The files that are inside a call, by thread. *)
Definition calling (ts : list thread) : list string :=
  flat_map (fun t => match t with Calling f => [f] | _ => [] end) ts.

Definition failures (ts : list thread) : nat :=
  sum_list_with (fun t => match t with Failed => 1 | _ => 0 end)%nat ts.

Definition returns (ts : list thread) : nat :=
  sum_list_with (fun t => match t with Returned => 1 | _ => 0 end)%nat ts.

(** Moves a thread can still make without a new file. *)
Definition pending (ts : list thread) : nat :=
  sum_list_with
    (fun t => match t with Polling => 1 | Calling _ => 2 | _ => 0 end)%nat ts.

(** An upper bound of the moves left in a pool. *)
Definition moves_left (st : state) : nat :=
  (3 * length (file_queue st) + pending (threads st))%nat.

(** Nothing is lost or duplicated; a thread returns only from an empty
    queue; each failure has used up a file. *)
Definition inv (file_list : list string) (st : state) : Prop :=
  handled st ++ calling (threads st) ++ file_queue st ≡ₚ file_list
  /\ ((0 < returns (threads st))%nat -> file_queue st = [])
  /\ (failures (threads st) <= length (handled st))%nat
  /\ length (threads st) = length file_list.
End PoolView.

(** * Properties *)

(** ** Lookups through the dict operations *)

Section DictFacts.
Context {V : Type}.
Implicit Types (d : list (string * V)) (k : string) (v : V).

Lemma get_set d k k' v :
  Dict.get k' (Dict.set k v d) = if decide (k' = k) then Some v else Dict.get k' d.
Proof.
  induction d as [|[k0 v0] d IH]; simpl.
  - repeat case_decide; congruence.
  - repeat (case_decide; simpl); try congruence.
Qed.

Lemma get_del d k k' :
  Dict.get k' (Dict.del k d) = if decide (k' = k) then None else Dict.get k' d.
Proof.
  unfold Dict.del. induction d as [|[k0 v0] d IH].
  - simpl. by case_decide.
  - rewrite filter_cons. simpl.
    repeat (case_decide; simpl); subst; try congruence.
Qed.

Lemma get_None_keys d k : Dict.get k d = None <-> k ∉ Dict.keys d.
Proof.
  unfold Dict.keys. induction d as [|[k0 v0] d IH]; simpl.
  - split; [intros _; apply not_elem_of_nil | done].
  - rewrite not_elem_of_cons. case_decide; subst.
    + split; [discriminate | intros [? _]; congruence].
    + rewrite IH. tauto.
Qed.

Lemma mem_keys d k : Dict.mem k d = true <-> k ∈ Dict.keys d.
Proof.
  unfold Dict.mem. pose proof (get_None_keys d k) as H.
  destruct (Dict.get k d).
  - split; [intros _ | done].
    destruct (decide (k ∈ Dict.keys d)) as [|Hn]; [done|].
    apply H in Hn. discriminate.
  - split; [discriminate|]. intros Hin. by destruct (proj1 H).
Qed.

Lemma keys_set_mem d k v :
  Dict.mem k d = true -> Dict.keys (Dict.set k v d) = Dict.keys d.
Proof.
  unfold Dict.mem, Dict.keys. induction d as [|[k0 v0] d IH]; simpl; [done|].
  case_decide; subst; simpl; [done|]. intros Hm. f_equal. by apply IH.
Qed.

Lemma keys_set_new d k v :
  Dict.get k d = None -> Dict.keys (Dict.set k v d) = Dict.keys d ++ [k].
Proof.
  unfold Dict.keys. induction d as [|[k0 v0] d IH]; simpl; [done|].
  case_decide; subst; simpl; [done|]. intros Hm. f_equal. by apply IH.
Qed.
End DictFacts.

(** ** Normalization *)

Lemma get_move_column (src dst k : string) (columns : store) :
  Dict.get k (move_column src dst columns) =
    if truthy (Dict.get src columns) then
      if decide (k = src) then None
      else if decide (k = dst) then Some (get_list src columns)
      else Dict.get k columns
    else Dict.get k columns.
Proof.
  unfold move_column. destruct (truthy (Dict.get src columns)); [|done].
  by rewrite get_del, get_set.
Qed.

Lemma get_combine_euro_cents (k : string) (columns : store) :
  Dict.get k (combine_euro_cents columns) =
    if truthy (Dict.get "euro" columns) && truthy (Dict.get "cents" columns) then
      if decide (k = "cents") then None
      else if decide (k = "euro") then None
      else if decide (k = "amount") then
        Some (zip_format (get_list "euro" columns) (get_list "cents" columns))
      else Dict.get k columns
    else Dict.get k columns.
Proof.
  unfold combine_euro_cents.
  destruct (truthy (Dict.get "euro" columns) && truthy (Dict.get "cents" columns));
    [|done].
  by rewrite !get_del, get_set.
Qed.

Lemma truthy_Some (l : list string) : l <> [] -> truthy (Some l) = true.
Proof. by destruct l. Qed.

Lemma move_column_other (src dst k : string) (columns : store) :
  k <> src -> k <> dst ->
  Dict.get k (move_column src dst columns) = Dict.get k columns.
Proof.
  intros H1 H2. rewrite get_move_column.
  destruct (truthy _); [|done]. by rewrite !decide_False.
Qed.

Lemma move_column_src (src dst : string) (columns : store) :
  truthy (Dict.get src columns) = true ->
  Dict.get src (move_column src dst columns) = None.
Proof.
  intros H. rewrite get_move_column, H. by rewrite decide_True.
Qed.

Lemma move_column_dst (src dst : string) (columns : store) :
  truthy (Dict.get src columns) = true -> dst <> src ->
  Dict.get dst (move_column src dst columns) = Some (get_list src columns).
Proof.
  intros H Hne. rewrite get_move_column, H.
  by rewrite decide_False, decide_True.
Qed.

Lemma move_column_skip (src dst : string) (columns : store) :
  truthy (Dict.get src columns) = false -> move_column src dst columns = columns.
Proof. unfold move_column. by intros ->. Qed.

Lemma combine_euro_cents_other (k : string) (columns : store) :
  k <> "euro" -> k <> "cents" -> k <> "amount" ->
  Dict.get k (combine_euro_cents columns) = Dict.get k columns.
Proof.
  intros H1 H2 H3. rewrite get_combine_euro_cents.
  destruct (_ && _); [|done]. by rewrite !decide_False.
Qed.

Lemma zip_format_length (xs ys : list string) :
  length (zip_format xs ys) = Nat.min (length xs) (length ys).
Proof.
  revert ys. induction xs as [|x xs IH]; intros [|y ys]; simpl; auto.
Qed.

Lemma zip_format_lookup (xs ys : list string) (i : nat) (x y : string) :
  xs !! i = Some x -> ys !! i = Some y ->
  zip_format xs ys !! i = Some (x +:+ "." +:+ y).
Proof.
  revert ys i. induction xs as [|x0 xs IH]; intros [|y0 ys] [|i]; simpl;
    try discriminate.
  - intros [= ->] [= ->]. reflexivity.
  - apply IH.
Qed.

(** C2, as stated, fails: with both columns present the second [if]
    (lines 105-107) runs after the first and rebinds ["date"]. *)
Lemma timestamp_does_not_win :
  let raw : store :=
    [("timestamp", ["01-01-2020"]); ("date_readable", ["Feb 02 2021"])] in
  Dict.get "timestamp" raw = Some ["01-01-2020"]
  /\ Dict.get "date_readable" raw = Some ["Feb 02 2021"]
  /\ Dict.get "date" (normalize raw) = Some ["Feb 02 2021"]
  /\ Dict.get "date" (normalize raw) <> Dict.get "timestamp" raw.
Proof. vm_compute. repeat split; discriminate. Qed.

(** C2, amended: for every raw store with a non-empty ["timestamp"] column
    and a non-empty ["date_readable"] column, both renames are applied in
    turn and ["date_readable"] wins: the ["date"] sequence of the
    normalized store is the original ["date_readable"] sequence, and
    neither of the two source keys remains. *)
Theorem date_readable_wins (raw : store) (ts dr : list string) :
  Dict.get "timestamp" raw = Some ts ->
  Dict.get "date_readable" raw = Some dr ->
  ts <> [] -> dr <> [] ->
  Dict.get "date" (normalize raw) = Some dr
  /\ Dict.get "timestamp" (normalize raw) = None
  /\ Dict.get "date_readable" (normalize raw) = None.
Proof.
  intros Hts Hdr Hts0 Hdr0. unfold normalize.
  set (c1 := combine_euro_cents raw).
  assert (H1t : Dict.get "timestamp" c1 = Some ts)
    by (subst c1; by rewrite combine_euro_cents_other).
  assert (H1d : Dict.get "date_readable" c1 = Some dr)
    by (subst c1; by rewrite combine_euro_cents_other).
  set (c2 := move_column "timestamp" "date" c1).
  assert (H2t : Dict.get "timestamp" c2 = None).
  { subst c2. apply move_column_src. rewrite H1t. by apply truthy_Some. }
  assert (H2d : Dict.get "date_readable" c2 = Some dr)
    by (subst c2; by rewrite move_column_other).
  set (c3 := move_column "date_readable" "date" c2).
  assert (Htr : truthy (Dict.get "date_readable" c2) = true)
    by (rewrite H2d; by apply truthy_Some).
  assert (H3 : Dict.get "date" c3 = Some dr).
  { subst c3. rewrite move_column_dst by done. unfold get_list. by rewrite H2d. }
  assert (H3d : Dict.get "date_readable" c3 = None)
    by (subst c3; by apply move_column_src).
  assert (H3t : Dict.get "timestamp" c3 = None)
    by (subst c3; by rewrite move_column_other).
  by rewrite !move_column_other.
Qed.

Lemma date_readable_wins_witness :
  Dict.get "date"
    (normalize [("timestamp", ["01-01-2020"]); ("date_readable", ["Feb 02 2021"])])
  = Some ["Feb 02 2021"].
Proof.
  apply (date_readable_wins
           [("timestamp", ["01-01-2020"]); ("date_readable", ["Feb 02 2021"])]
           ["01-01-2020"] ["Feb 02 2021"]); [reflexivity | reflexivity | | ];
    discriminate.
Defined.

(** C5, as stated, fails: a file that also has an ["amounts"] column gets
    its ["amount"] rebound by lines 113-115. *)
Lemma amounts_overrides_euro_cents :
  let raw : store := [("euro", ["10"]); ("cents", ["50"]); ("amounts", ["7"])] in
  truthy (Dict.get "euro" raw) = true
  /\ truthy (Dict.get "cents" raw) = true
  /\ Dict.get "amount" (normalize raw) = Some ["7"]
  /\ Dict.get "amount" (normalize raw) <> Some (zip_format ["10"] ["50"]).
Proof. vm_compute. repeat split; discriminate. Qed.

(** C5, amended: for every raw store with non-empty ["euro"] and ["cents"]
    columns and no non-empty ["amounts"] column, the normalized store has
    an ["amount"] column pairing the two by position (["euro.cents"],
    as long as the shorter of the two) and has neither an ["euro"] nor a
    ["cents"] key; euro=["10","5"], cents=["50","00"] gives
    ["10.50","5.00"]. *)
Theorem euro_cents_amount (raw : store) (euro cents : list string) :
  Dict.get "euro" raw = Some euro ->
  Dict.get "cents" raw = Some cents ->
  euro <> [] -> cents <> [] ->
  truthy (Dict.get "amounts" raw) = false ->
  let amount := zip_format euro cents in
  Dict.get "amount" (normalize raw) = Some amount
  /\ Dict.get "euro" (normalize raw) = None
  /\ Dict.get "cents" (normalize raw) = None
  /\ length amount = Nat.min (length euro) (length cents)
  /\ (forall i x y, euro !! i = Some x -> cents !! i = Some y ->
        amount !! i = Some (x +:+ "." +:+ y))
  /\ zip_format ["10"; "5"] ["50"; "00"] = ["10.50"; "5.00"].
Proof.
  intros He Hc He0 Hc0 Ha amount.
  assert (Hnorm : forall k, k <> "date" -> k <> "timestamp" ->
            k <> "date_readable" -> k <> "type" -> k <> "transaction" ->
            k <> "amounts" ->
            Dict.get k (normalize raw) = Dict.get k (combine_euro_cents raw)).
  { intros k ? ? ? ? ? ?. unfold normalize.
    rewrite (move_column_skip "amounts").
    - by rewrite !move_column_other.
    - rewrite !move_column_other, combine_euro_cents_other by done. exact Ha. }
  rewrite !Hnorm by done. rewrite !get_combine_euro_cents.
  unfold get_list. rewrite He, Hc, !truthy_Some by done. simpl.
  repeat split.
  - apply zip_format_length.
  - intros i x y. apply zip_format_lookup.
Qed.

Lemma euro_cents_amount_witness :
  Dict.get "amount" (normalize [("euro", ["10"; "5"]); ("cents", ["50"; "00"])])
  = Some ["10.50"; "5.00"].
Proof.
  apply (euro_cents_amount [("euro", ["10"; "5"]); ("cents", ["50"; "00"])]
           ["10"; "5"] ["50"; "00"]);
    [reflexivity | reflexivity | discriminate | discriminate | reflexivity].
Defined.

(** ** The merge *)

Lemma get_extend (i k : string) (j : list string) (data_list : store) :
  Dict.get k (extend i j data_list) =
    if decide (k = i) then (fun v => v ++ j) <$> Dict.get k data_list
    else Dict.get k data_list.
Proof.
  induction data_list as [|[k0 v0] d IH]; simpl.
  - by case_decide.
  - repeat (case_decide; simpl); subst; try congruence.
Qed.

Lemma keys_extend (i : string) (j : list string) (data_list : store) :
  Dict.keys (extend i j data_list) = Dict.keys data_list.
Proof.
  unfold Dict.keys. induction data_list as [|[k0 v0] d IH]; simpl; [done|].
  case_decide; simpl; [done|]. f_equal. apply IH.
Qed.

Lemma get_merge_item (k : string) (data_list : store) (i : string) (j : list string) :
  Dict.get k (merge_item data_list (i, j)) =
    if decide (k = i) then (fun v => v ++ j) <$> Dict.get k data_list
    else Dict.get k data_list.
Proof.
  unfold merge_item, Dict.mem.
  destruct (Dict.get i data_list) eqn:Hi.
  - apply get_extend.
  - case_decide; subst; [by rewrite Hi | done].
Qed.

Lemma keys_merge_item (data_list : store) (item : string * list string) :
  Dict.keys (merge_item data_list item) = Dict.keys data_list.
Proof.
  destruct item as [i j]. unfold merge_item.
  destruct (Dict.mem i data_list); [apply keys_extend | done].
Qed.

Lemma keys_fold_merge (columns data_list : store) :
  Dict.keys (fold_left merge_item columns data_list) = Dict.keys data_list.
Proof.
  revert data_list. induction columns as [|item c IH]; intros dl; [done|].
  change (fold_left merge_item (item :: c) dl)
    with (fold_left merge_item c (merge_item dl item)).
  by rewrite IH, keys_merge_item.
Qed.

Lemma get_fold_merge (k : string) (columns data_list : store) :
  Dict.wf columns ->
  Dict.get k (fold_left merge_item columns data_list) =
    (fun v => v ++ get_list k columns) <$> Dict.get k data_list.
Proof.
  unfold Dict.wf, Dict.keys, get_list. revert data_list.
  induction columns as [|[i j] c IH]; intros dl Hwf.
  - simpl. destruct (Dict.get k dl); simpl; [by rewrite app_nil_r | done].
  - rewrite fmap_cons in Hwf. apply NoDup_cons in Hwf as [Hi Hwf].
    change ((i, j).1) with i in Hi.
    change (fold_left merge_item ((i, j) :: c) dl)
      with (fold_left merge_item c (merge_item dl (i, j))).
    rewrite IH, get_merge_item by done.
    cbn [Dict.get]. case_decide as Hk; [subst k | done].
    apply get_None_keys in Hi. rewrite Hi.
    destruct (Dict.get i dl); simpl; [by rewrite app_nil_r | done].
Qed.

Lemma keys_merge_nonempty (data_list columns : store) :
  data_list <> [] -> Dict.keys (merge data_list columns) = Dict.keys data_list.
Proof.
  intros Hne. unfold merge. destruct data_list; [done|]. apply keys_fold_merge.
Qed.

(** C1, as stated, fails: a key of the per-file store that the non-empty
    aggregate lacks is skipped by the test of line 131, not installed.  Two
    files, the second with an extra ["fee"] column. *)
Lemma merge_drops_new_keys :
  let file_a := file_columns [("date", ["Jan 05 2020"]); ("amount", ["10.00"])] in
  let file_b := file_columns
                  [("date", ["06-01-2020"]); ("amount", ["20.00"]); ("fee", ["1"])] in
  let aggregate := merge [] file_a in
  Dict.get "fee" file_b = Some ["1"]
  /\ Dict.get "fee" aggregate = None
  /\ Dict.get "fee" (merge aggregate file_b) = None
  /\ Dict.keys (merge aggregate file_b) = ["date"; "amount"].
Proof. vm_compute. repeat split. Qed.

(** C1, amended: a merge into the empty aggregate installs the per-file
    store wholesale; a merge into a non-empty aggregate appends, for every
    key the aggregate already has, the per-file values at the end of its
    sequence, and leaves the key set of the aggregate as it was (a key of
    the per-file store that the aggregate lacks is not installed).
    Consequently, merging two files' stores yields the key set of the
    first, each key's length being the sum of the per-file lengths where
    the key was present. *)
Theorem merge_appends_existing_keys (data_list columns : store) (k : string) :
  Dict.wf columns ->
  data_list <> [] ->
  merge [] columns = columns
  /\ Dict.keys (merge data_list columns) = Dict.keys data_list
  /\ Dict.get k (merge data_list columns) =
       (fun v => v ++ get_list k columns) <$> Dict.get k data_list
  /\ Dict.keys (merge (merge [] data_list) columns) = Dict.keys data_list
  /\ length <$> Dict.get k (merge (merge [] data_list) columns) =
       (fun v => (length v + length (get_list k columns))%nat)
         <$> Dict.get k data_list.
Proof.
  intros Hwf Hne.
  assert (Hget : Dict.get k (merge data_list columns) =
                   (fun v => v ++ get_list k columns) <$> Dict.get k data_list).
  { unfold merge. destruct data_list; [done|]. by apply get_fold_merge. }
  repeat split.
  - by apply keys_merge_nonempty.
  - exact Hget.
  - by apply keys_merge_nonempty.
  - change (merge [] data_list) with data_list. rewrite Hget.
    destruct (Dict.get k data_list); simpl; [|done]. by rewrite length_app.
Qed.

Lemma merge_appends_existing_keys_witness :
  Dict.get "date"
    (merge [("date", ["05-01-2020"]); ("amount", ["10.00"])]
           [("date", ["06-01-2020"]); ("fee", ["1"])])
  = (fun v => v ++ get_list "date" [("date", ["06-01-2020"]); ("fee", ["1"])])
      <$> Dict.get "date" [("date", ["05-01-2020"]); ("amount", ["10.00"])].
Proof.
  apply (merge_appends_existing_keys
           [("date", ["05-01-2020"]); ("amount", ["10.00"])]
           [("date", ["06-01-2020"]); ("fee", ["1"])] "date").
  - apply (bool_decide_unpack _). vm_compute. reflexivity.
  - discriminate.
Defined.

(** ** The ["date"] key *)

Lemma get_date_canonicalize (columns : store) :
  Dict.get "date" (canonicalize columns) =
    Some (canonical_dates (get_list "date" columns)).
Proof.
  unfold canonicalize, dd_getitem, get_list.
  destruct (Dict.get "date" columns); by rewrite get_set.
Qed.

Lemma mem_fold_merge (k : string) (stores : list store) (data_list : store) :
  Dict.mem k data_list = true ->
  Dict.mem k (fold_left merge stores data_list) = true.
Proof.
  revert data_list. induction stores as [|c stores IH]; intros dl Hk; [done|].
  simpl. apply IH. apply mem_keys. apply mem_keys in Hk.
  rewrite keys_merge_nonempty; [done|].
  destruct dl; [by apply elem_of_nil in Hk | done].
Qed.

(** C9: whenever [csv_parser] gets through a file, the per-file store has
    a ["date"] key, also when the file has no ["date"], ["timestamp"] or
    ["date_readable"] column (the key is then bound to the empty list);
    so the aggregate after the first merge, and after every later merge,
    has a ["date"] key, and so has the header row written from it. *)
Theorem date_key_always_present
    (read_csv : string -> option store) (filename : string) (raw : store)
    (later : list store) :
  read_csv filename = Some raw ->
  let aggregate := fold_left merge (file_columns <$> later) (file_columns raw) in
  csv_parser read_csv filename [] = Ok (file_columns raw)
  /\ Dict.mem "date" (file_columns raw) = true
  /\ file_columns [("amount", ["10.00"])] = [("amount", ["10.00"]); ("date", [])]
  /\ Dict.mem "date" aggregate = true
  /\ (exists header, head (generate_csv aggregate) = Some header /\ "date" ∈ header).
Proof.
  intros Hread aggregate.
  assert (Hfile : Dict.mem "date" (file_columns raw) = true).
  { unfold Dict.mem, file_columns. by rewrite get_date_canonicalize. }
  assert (Hagg : Dict.mem "date" aggregate = true) by by apply mem_fold_merge.
  repeat split; try done.
  - unfold csv_parser. by rewrite Hread.
  - exists (Dict.keys aggregate). split; [done|]. by apply mem_keys.
Qed.

Lemma date_key_always_present_witness :
  Dict.mem "date"
    (fold_left merge
       (file_columns <$> [[("date_readable", ["Jan 05 2020"])]])
       (file_columns [("amount", ["10.00"])])) = true.
Proof.
  apply (date_key_always_present
           (fun _ => Some [("amount", ["10.00"])]) "a.csv"
           [("amount", ["10.00"])] [[("date_readable", ["Jan 05 2020"])]]).
  reflexivity.
Defined.

(** ** Dispatch on the file name *)

(** Two suffixes of one string: one of them is a suffix of the other. *)
Lemma endswith_two (s a b : string) :
  endswith s a = true -> endswith s b = true ->
  endswith a b = true \/ endswith b a = true.
Proof.
  induction s as [|c s IH]; simpl; rewrite !orb_true_iff, !bool_decide_eq_true.
  - intros [<-|?] [<-|?]; try discriminate. by left.
  - intros [<-|Ha] [<-|Hb].
    + left. simpl. by rewrite bool_decide_eq_true_2.
    + left. simpl. by rewrite Hb, orb_true_r.
    + right. simpl. by rewrite Ha, orb_true_r.
    + by apply IH.
Qed.

Lemma endswith_xml_not_csv (s : string) :
  endswith s ".xml" = true -> endswith s ".csv" = false.
Proof.
  intros H. destruct (endswith s ".csv") eqn:E; [|done].
  by destruct (endswith_two _ _ _ H E).
Qed.

Lemma endswith_json_not_csv (s : string) :
  endswith s ".json" = true -> endswith s ".csv" = false.
Proof.
  intros H. destruct (endswith s ".csv") eqn:E; [|done].
  by destruct (endswith_two _ _ _ H E).
Qed.

Section Dispatch.
Variable read_csv : string -> option store.

(** C7: a file name ending in none of [.csv], [.xml], [.json] makes
    [file_parser_factory_method] raise its exception; the aggregate is
    not touched, and the thread that took the file leaves its loop with
    that exception, the aggregate being as it was before the file. *)
Theorem unsupported_suffix_raises
    (filename : string) (file_queue : list string) (data_list : store) :
  endswith filename ".csv" = false ->
  endswith filename ".xml" = false ->
  endswith filename ".json" = false ->
  file_parser_factory_method read_csv filename data_list
    = Raise (Exception "Error. Cannot parse this type of file.")
  /\ process_queued_files read_csv (filename :: file_queue) data_list
    = (Raise (Exception "Error. Cannot parse this type of file."),
       (file_queue, data_list)).
Proof.
  intros Hcsv Hxml Hjson.
  assert (H : file_parser_factory_method read_csv filename data_list
              = Raise (Exception "Error. Cannot parse this type of file."))
    by (unfold file_parser_factory_method; by rewrite Hcsv, Hxml, Hjson).
  split; [exact H|]. simpl. by rewrite H.
Qed.

(** C10: a file name ending in [.xml] or [.json] makes
    [file_parser_factory_method] return normally with the aggregate
    unchanged, whatever the file holds and whether or not it can be
    opened: the file is not read. *)
Theorem xml_json_is_noop (filename : string) (data_list : store) :
  endswith filename ".xml" = true \/ endswith filename ".json" = true ->
  file_parser_factory_method read_csv filename data_list = Ok data_list.
Proof.
  unfold file_parser_factory_method. intros [H|H].
  - by rewrite (endswith_xml_not_csv _ H), H.
  - rewrite (endswith_json_not_csv _ H), H. by destruct (endswith _ ".xml").
Qed.
End Dispatch.

Lemma unsupported_suffix_raises_witness :
  file_parser_factory_method (fun _ => None) "notes.txt" [("date", ["05-01-2020"])]
  = Raise (Exception "Error. Cannot parse this type of file.").
Proof.
  apply (unsupported_suffix_raises (fun _ => None) "notes.txt" []
           [("date", ["05-01-2020"])]); reflexivity.
Defined.

Lemma xml_json_is_noop_witness :
  file_parser_factory_method (fun _ => None) "bank.xml" [("date", ["05-01-2020"])]
  = Ok [("date", ["05-01-2020"])]
  /\ file_parser_factory_method (fun _ => Some [("date", ["Jan 05 2020"])])
       "bank.json" []
     = Ok [].
Proof.
  split.
  - apply (xml_json_is_noop (fun _ => None) "bank.xml"). left. reflexivity.
  - apply (xml_json_is_noop (fun _ => Some [("date", ["Jan 05 2020"])]) "bank.json").
    right. reflexivity.
Defined.

(** ** The three date formats exclude one another *)

Section Matchers.
Context {A B : Type}.

Lemma in_m_bind (m : matcher A) (f : A -> matcher B) s (y : B * string) :
  In y (m_bind m f s) <-> exists a s', In (a, s') (m s) /\ In y (f a s').
Proof.
  unfold m_bind. rewrite in_flat_map. split.
  - intros [[a s'] [H1 H2]]. eauto.
  - intros (a & s' & H1 & H2). exists (a, s'). auto.
Qed.

Lemma in_m_char (p : ascii -> bool) s (a : ascii) (s' : string) :
  In (a, s') (m_char p s) <-> s = String a s' /\ p a = true.
Proof.
  unfold m_char. destruct s as [|c s0]; simpl.
  - split; [intros [] | intros [? _]; discriminate].
  - destruct (p c) eqn:E; simpl; split.
    + intros [[= <- <-]|[]]. auto.
    + intros [[= <- <-] _]. auto.
    + intros [].
    + intros [[= <- <-] Hp]. congruence.
Qed.
End Matchers.

Lemma in_m_spaces (s : string) (y : unit * string) :
  In y (m_spaces s) -> exists c s', s = String c s' /\ is_space c = true.
Proof.
  destruct s as [|c s']; simpl; [done|].
  destruct (is_space c) eqn:E; [eauto | done].
Qed.

(** Inversion of a match of a chain of single characters. *)
Ltac inv_chars H :=
  lazymatch type of H with
  | In _ (m_bind (m_char _) _ _) =>
      let a := fresh "a" in
      let s := fresh "s" in
      let Hc := fresh "Hc" in
      let H' := fresh "H" in
      apply in_m_bind in H as (a & s & Hc & H');
      apply in_m_char in Hc as [-> Hc];
      cbv beta in H'; inv_chars H'
  | In _ (m_ret _ _) => destruct H as [[= <- <-]|[]]
  | _ => idtac
  end.

Lemma in_range_digit (lo hi c : ascii) :
  in_range lo hi c = true ->
  in_range "0" "9" lo = true -> in_range "0" "9" hi = true ->
  is_digit c = true.
Proof.
  unfold is_digit, in_range. rewrite !andb_true_iff, !Nat.leb_le. lia.
Qed.

(** What [%d] leaves: the data minus one character, or minus two of which
    the second is a digit. *)
Lemma in_re_d (s : string) (d : Z) (rest : string) :
  In (d, rest) (re_d s) ->
  (exists c1, s = String c1 rest)
  \/ (exists c1 c2, s = String c1 (String c2 rest) /\ is_digit c2 = true).
Proof.
  unfold re_d, m_alts. cbn [flat_map]. rewrite !in_app_iff.
  intros [H|[H|[H|[H|[H|[]]]]]]; inv_chars H; eauto;
    right; do 2 eexists; (split; [reflexivity|]);
    solve [done | by eapply in_range_digit].
Qed.

Lemma in_re_d_first (s : string) (y : Z * string) :
  In y (re_d s) ->
  exists c s', s = String c s' /\ (is_digit c = true \/ c = " "%char).
Proof.
  destruct y as [d rest].
  unfold re_d, m_alts. cbn [flat_map]. rewrite !in_app_iff.
  intros [H|[H|[H|[H|[H|[]]]]]]; inv_chars H;
    repeat match goal with
      | Hc : is_char _ _ = true |- _ =>
          apply bool_decide_eq_true in Hc; subst
      end;
    do 2 eexists; (split; [reflexivity|]);
    solve [by left | by right | left; by eapply in_range_digit].
Qed.

Lemma in_m_word_first (a : ascii) (w s : string) (y : unit * string) :
  In y (m_word (String a w) s) ->
  exists c s', s = String c s' /\ lower c = a.
Proof.
  cbn [m_word]. intros H.
  apply in_m_bind in H as (c & s' & Hc & _).
  apply in_m_char in Hc as [-> Hc]. apply bool_decide_eq_true in Hc. eauto.
Qed.

(** A character that folds to a lower-case letter is neither a digit, nor
    white space, nor a dash. *)
Lemma lower_letter (c : ascii) :
  in_range "a" "z" (lower c) = true ->
  is_digit c = false /\ is_space c = false /\ c <> "-"%char.
Proof.
  destruct c as [[] [] [] [] [] [] [] []]; vm_compute;
    first [discriminate | intros _; repeat split; discriminate].
Qed.

Lemma space_not_digit (c : ascii) :
  is_space c = true -> is_digit c = false /\ c <> "-"%char.
Proof.
  destruct c as [[] [] [] [] [] [] [] []]; vm_compute;
    first [discriminate | intros _; repeat split; discriminate].
Qed.

Lemma in_re_b_first (s : string) (y : Z * string) :
  In y (re_b s) ->
  exists c s', s = String c s' /\ in_range "a" "z" (lower c) = true.
Proof.
  unfold re_b, a_month. cbn [re_names]. unfold m_alt, m_fail.
  rewrite !in_app_iff.
  intros H.
  repeat (destruct H as [H|H];
          [apply in_m_bind in H as (? & ? & H & _);
           apply in_m_word_first in H as (c & s' & -> & Hl);
           exists c, s'; split; [done|]; by rewrite Hl |]).
  destruct H.
Qed.

Lemma regex_b_first (fmt : list directive) (acc : date) s (y : date * string) :
  In y (regex (Pct_b :: fmt) acc s) -> letter_first s = true.
Proof.
  cbn [regex]. intros H. apply in_m_bind in H as (b & s' & H & _).
  by apply in_re_b_first in H as (c & s0 & -> & H).
Qed.

Lemma regex_d_first (fmt : list directive) (acc : date) s (y : date * string) :
  In y (regex (Pct_d :: fmt) acc s) -> letter_first s = false.
Proof.
  cbn [regex]. intros H. apply in_m_bind in H as (b & s' & H & _).
  apply in_re_d_first in H as (c & s0 & -> & H). simpl.
  destruct (in_range "a" "z" (lower c)) eqn:E; [|done].
  apply lower_letter in E as (Hd & Hs & _).
  destruct H as [H| ->]; [congruence | done].
Qed.

Lemma regex_day_blank_dash (fmt1 fmt2 : list directive) (acc1 acc2 : date) s
    (y1 y2 : date * string) :
  In y1 (regex (Pct_d :: Blank :: fmt1) acc1 s) ->
  In y2 (regex (Pct_d :: Lit "-" :: fmt2) acc2 s) -> False.
Proof.
  cbn [regex]. intros H1 H2.
  apply in_m_bind in H1 as (d1 & r1 & Hd1 & H1).
  apply in_m_bind in H1 as (? & ? & H1 & _).
  apply in_m_spaces in H1 as (c1 & t1 & -> & Hsp).
  apply in_m_bind in H2 as (d2 & r2 & Hd2 & H2).
  apply in_m_bind in H2 as (c2 & t2 & H2 & _).
  apply in_m_char in H2 as [-> Hc2]. apply bool_decide_eq_true in Hc2. subst c2.
  apply space_not_digit in Hsp as [Hnd Hndash].
  apply in_re_d in Hd1 as [(a1 & E1)|(a1 & b1 & E1 & Hb1)];
    apply in_re_d in Hd2 as [(a2 & E2)|(a2 & b2 & E2 & Hb2)];
    subst s; injection E2 as [= -> E2]; try injection E2 as [= -> E2];
    try congruence; subst; try discriminate.
Qed.

Lemma strptime_Some_in (row : string) (fmt : list directive) (d : date) :
  strptime row fmt = Some d ->
  exists y, In y (regex fmt (mk_date 1900 1 1) row).
Proof.
  unfold strptime. destruct (regex fmt _ row) as [|y l]; [done|].
  intros _. exists y. by left.
Qed.

(** No value parses under two of the three formats. *)
Lemma formats_exclusive (row : string) (d : date) :
  (strptime row fmt_b_d_Y = Some d ->
     strptime row fmt_d_b_Y = None /\ strptime row fmt_d_m_Y = None)
  /\ (strptime row fmt_d_b_Y = Some d -> strptime row fmt_d_m_Y = None).
Proof.
  split.
  - intros H. apply strptime_Some_in in H as [y Hy].
    apply regex_b_first in Hy.
    split.
    + destruct (strptime row fmt_d_b_Y) eqn:E; [|done].
      apply strptime_Some_in in E as [z Hz]. apply regex_d_first in Hz.
      congruence.
    + destruct (strptime row fmt_d_m_Y) eqn:E; [|done].
      apply strptime_Some_in in E as [z Hz]. apply regex_d_first in Hz.
      congruence.
  - intros H. apply strptime_Some_in in H as [y Hy].
    destruct (strptime row fmt_d_m_Y) eqn:E; [|done].
    apply strptime_Some_in in E as [z Hz].
    destruct (regex_day_blank_dash _ _ _ _ _ _ _ Hy Hz).
Qed.

(** The inner loop adds the canonical form of the value, once, or
    nothing. *)
Lemma try_formats_canonical (row : string) (date_list : list string) :
  try_formats row date_list = date_list ++ option_list (canonical_date row).
Proof.
  unfold try_formats, canonical_date, date_formats, try_format.
  cbn [fold_left first_parse].
  destruct (strptime row fmt_b_d_Y) as [d1|] eqn:E1.
  - destruct (proj1 (formats_exclusive row d1) E1) as [-> ->]. done.
  - destruct (strptime row fmt_d_b_Y) as [d2|] eqn:E2.
    + rewrite (proj2 (formats_exclusive row d2) E2). done.
    + destruct (strptime row fmt_d_m_Y); simpl; [done|]. by rewrite app_nil_r.
Qed.

Lemma canonical_dates_from (rows : list string) (date_list : list string) :
  fold_left (fun date_list row => try_formats row date_list) rows date_list
  = date_list ++ omap canonical_date rows.
Proof.
  revert date_list. induction rows as [|row rows IH]; intros dl; simpl.
  - by rewrite app_nil_r.
  - rewrite IH, try_formats_canonical, <- app_assoc. f_equal.
    by destruct (canonical_date row).
Qed.

(** C3: for every value of the ["date"] column the three formats are
    tried in the order month-name day year, day month-name year,
    day-month-year, and the value contributes the canonical form given by
    the first format that parses it, exactly once, or nothing when none
    does; no value parses under more than one of the formats. *)
Theorem first_format_wins (row : string) (date_list : list string) :
  date_formats = [fmt_b_d_Y; fmt_d_b_Y; fmt_d_m_Y]
  /\ try_formats row date_list = date_list ++ option_list (canonical_date row)
  /\ (length (option_list (canonical_date row)) <= 1)%nat
  /\ (length (filter (fun fmt => is_Some (strptime row fmt)) date_formats)
      <= 1)%nat.
Proof.
  split; [done|]. split; [apply try_formats_canonical|].
  split; [destruct (canonical_date row); simpl; lia|].
  unfold date_formats. rewrite !filter_cons, filter_nil.
  destruct (strptime row fmt_b_d_Y) as [d1|] eqn:E1.
  - destruct (proj1 (formats_exclusive row d1) E1) as [-> ->].
    repeat case_decide; simpl; try lia;
      match goal with H : is_Some None |- _ => by destruct H end.
  - destruct (strptime row fmt_d_b_Y) as [d2|] eqn:E2.
    + rewrite (proj2 (formats_exclusive row d2) E2).
      repeat case_decide; simpl; try lia;
        match goal with H : is_Some None |- _ => by destruct H end.
    + repeat case_decide; simpl; try lia;
        match goal with H : is_Some None |- _ => by destruct H end.
Qed.

(** C4: ["Jan 05 2020"], ["05 Jan 2020"] and ["05-01-2020"] all become
    ["05-01-2020"]; ["2020/01/05"] parses under no format and is dropped
    without a placeholder; in general the output is the canonical forms of
    the values that parse, in order, so the sequence is shorter by one for
    each value that does not. *)
Theorem unparseable_dates_dropped (rows : list string) :
  canonical_dates ["Jan 05 2020"] = ["05-01-2020"]
  /\ canonical_dates ["05 Jan 2020"] = ["05-01-2020"]
  /\ canonical_dates ["05-01-2020"] = ["05-01-2020"]
  /\ canonical_dates ["2020/01/05"] = []
  /\ canonical_dates ["Jan 05 2020"; "2020/01/05"; "06-01-2020"]
     = ["05-01-2020"; "06-01-2020"]
  /\ canonical_dates rows = omap canonical_date rows
  /\ (length (canonical_dates rows)
      + length (filter (fun row => canonical_date row = None) rows)
      = length rows)%nat.
Proof.
  do 5 (split; [by vm_compute|]).
  assert (H : canonical_dates rows = omap canonical_date rows)
    by apply (canonical_dates_from rows []).
  split; [exact H|]. rewrite H. clear H.
  induction rows as [|row rows IH]; [done|].
  rewrite filter_cons.
  change (omap canonical_date (row :: rows))
    with (match canonical_date row with
          | Some y => y :: omap canonical_date rows
          | None => omap canonical_date rows
          end).
  destruct (canonical_date row) eqn:E; case_decide; try done;
    rewrite ?length_cons; lia.
Qed.

(** ** The rows written by [generate_csv] *)

Section ZipLongestFacts.
Context {A : Type}.
Implicit Types (its : list (list A)).

Lemma zip_longest_step its :
  zip_longest its =
    if forallb exhausted its then []
    else (head <$> its) :: zip_longest (tail <$> its).
Proof.
  rewrite zip_longest_equation_1.
  destruct (Sumbool.sumbool_of_bool (forallb exhausted its)) as [E|E];
    simpl; by rewrite E.
Qed.

Lemma exhausted_max_length its :
  forallb exhausted its = true <-> max_length its = 0%nat.
Proof.
  induction its as [|it its IH]; simpl; [done|].
  rewrite andb_true_iff, IH. destruct it; simpl; [|lia].
  split; [tauto | auto].
Qed.

Lemma max_length_tail its :
  max_length (tail <$> its) = (max_length its - 1)%nat.
Proof.
  induction its as [|it its IH]; [done|].
  rewrite fmap_cons. cbn [max_length foldr]. fold (max_length (tail <$> its)).
  fold (max_length its). rewrite IH. destruct it; simpl; lia.
Qed.

(** Row [r] of the output holds position [r] of every sequence, and
    there are as many rows as the longest sequence is long. *)
Lemma zip_longest_rows its :
  zip_longest its
  = (fun r => (fun it => it !! r) <$> its) <$> seq 0 (max_length its).
Proof.
  remember (max_length its) as n eqn:Hn. revert its Hn.
  induction n as [|n IH]; intros its Hn; rewrite zip_longest_step.
  - symmetry in Hn. apply exhausted_max_length in Hn. by rewrite Hn.
  - destruct (forallb exhausted its) eqn:E.
    { apply exhausted_max_length in E. lia. }
    cbn [seq]. rewrite fmap_cons. f_equal.
    + apply list_fmap_ext. intros _ it _. by destruct it.
    + rewrite (IH (tail <$> its)) by (rewrite max_length_tail; lia).
      rewrite <- fmap_S_seq, <- list_fmap_compose.
      apply list_fmap_ext. intros _ r _. simpl.
      rewrite <- list_fmap_compose. apply list_fmap_ext.
      intros _ it _. simpl. by destruct it.
Qed.

Lemma max_length_ge its (c : nat) (it : list A) :
  its !! c = Some it -> (length it <= max_length its)%nat.
Proof.
  revert c. induction its as [|it0 its IH]; intros [|c]; try done;
    change (max_length (it0 :: its))
      with (Nat.max (length it0) (max_length its)); simpl.
  - intros [= ->]. lia.
  - intros H. apply IH in H. lia.
Qed.
End ZipLongestFacts.

(** A column read down the rows: its values, then empty fields. *)
Lemma padded_column (col : list string) (n : nat) :
  (length col <= n)%nat ->
  (fun r => field (col !! r)) <$> seq 0 n
  = col ++ replicate (n - length col) "".
Proof.
  revert n. induction col as [|x col IH]; intros n Hn.
  - simpl. rewrite Nat.sub_0_r. clear Hn.
    induction n as [|n IHn]; [done|].
    cbn [seq replicate]. rewrite fmap_cons, <- fmap_S_seq, <- list_fmap_compose.
    f_equal. rewrite <- IHn. by apply list_fmap_ext.
  - destruct n as [|n]; simpl in Hn; [lia|].
    cbn [seq]. rewrite fmap_cons, <- fmap_S_seq, <- list_fmap_compose.
    simpl. f_equal. rewrite <- IH by lia. by apply list_fmap_ext.
Qed.

(** C6: the writer emits the keys of the aggregate as header row, then
    one row per position of the longest sequence; row [r] holds position
    [r] of every sequence, so column [c] read down the rows is the
    sequence of key [c] followed by one empty field for each position it
    lacks. *)
Theorem generate_csv_rows (data_list : store) (c : nat) (k : string) :
  Dict.keys data_list !! c = Some k ->
  let columns := (fun k => get_list k data_list) <$> Dict.keys data_list in
  let n := max_length columns in
  exists rows,
    generate_csv data_list = Dict.keys data_list :: rows
    /\ length rows = n
    /\ rows = (fun r => (fun col => field (col !! r)) <$> columns) <$> seq 0 n
    /\ (fun row => default "" (row !! c)) <$> rows
       = get_list k data_list
         ++ replicate (n - length (get_list k data_list)) "".
Proof.
  intros Hk columns n.
  assert (Hrows : fmap (M := list) field <$> zip_longest columns
                  = (fun r => (fun col => field (col !! r)) <$> columns)
                      <$> seq 0 n).
  { rewrite zip_longest_rows, <- list_fmap_compose. fold n.
    apply list_fmap_ext. intros _ r _. simpl.
    by rewrite <- list_fmap_compose. }
  exists (fmap (M := list) field <$> zip_longest columns).
  split; [done|]. split; [by rewrite Hrows, length_fmap, length_seq|].
  split; [exact Hrows|].
  assert (Hc : columns !! c = Some (get_list k data_list)).
  { subst columns. by rewrite list_lookup_fmap, Hk. }
  rewrite Hrows, <- list_fmap_compose.
  rewrite <- (padded_column _ n) by (by eapply max_length_ge).
  apply list_fmap_ext. intros _ r _. simpl.
  by rewrite list_lookup_fmap, Hc.
Qed.

Lemma generate_csv_rows_witness :
  exists rows,
    generate_csv [("date", ["05-01-2020"]); ("amount", ["10.00"; "20.00"])]
    = ["date"; "amount"] :: rows
    /\ length rows = 2%nat
    /\ rows = [["05-01-2020"; "10.00"]; [""; "20.00"]]
    /\ (fun row => default "" (row !! 0%nat)) <$> rows = ["05-01-2020"; ""].
Proof.
  apply (generate_csv_rows
           [("date", ["05-01-2020"]); ("amount", ["10.00"; "20.00"])] 0 "date").
  reflexivity.
Defined.

(** ** The worker threads *)

Section PoolFacts.
Import Pool PoolView.

Lemma update_split (ts : list thread) (i : nat) (t t' : thread) :
  ts !! i = Some t ->
  exists l1 l2, ts = l1 ++ t :: l2 /\ <[i := t']> ts = l1 ++ t' :: l2.
Proof.
  intros H. exists (take i ts), (drop (S i) ts). split.
  - by rewrite take_drop_middle.
  - apply insert_take_drop. by eapply lookup_lt_Some.
Qed.

Lemma calling_app (l1 l2 : list thread) :
  calling (l1 ++ l2) = calling l1 ++ calling l2.
Proof. apply flat_map_app. Qed.

Lemma inv_init (file_list : list string) : inv file_list (init file_list).
Proof.
  unfold inv, init; simpl.
  assert (H : forall n, calling (replicate n Polling) = []
                        /\ returns (replicate n Polling) = 0%nat
                        /\ failures (replicate n Polling) = 0%nat).
  { induction n as [|n (? & ? & ?)]; [done|]. simpl. repeat split; auto. }
  destruct (H (length file_list)) as (-> & -> & ->).
  split_and!.
  - by rewrite app_nil_l.
  - lia.
  - simpl. lia.
  - apply length_replicate.
Qed.

Lemma step_inv (file_list : list string) (i : nat) (raises : bool)
    (st st' : state) :
  step i raises st = Some st' -> inv file_list st ->
  inv file_list st' /\ (moves_left st' < moves_left st)%nat.
Proof.
  unfold step, inv, moves_left, returns, failures, pending.
  destruct st as [q ts h]; simpl.
  destruct (ts !! i) as [t|] eqn:Hi; [|done].
  intros Hstep (Hperm & Hret & Hfail & Hlen).
  destruct t as [|f| |]; try done.
  - destruct q as [|f q]; injection Hstep as <-; simpl;
      [destruct (update_split ts i Polling Returned Hi) as (l1 & l2 & -> & ->)
      |destruct (update_split ts i Polling (Calling f) Hi)
         as (l1 & l2 & -> & ->)];
      rewrite ?length_insert, ?calling_app, ?sum_list_with_app,
        ?length_app in *; simpl in *.
    + repeat split; auto; lia.
    + repeat split; try lia.
      * rewrite <- Hperm. apply Permutation_app_head.
        rewrite <- !app_assoc. apply Permutation_app_head.
        simpl. 
        change (f :: calling l2 ++ q) with ([f] ++ (calling l2 ++ q)).
        change (calling l2 ++ f :: q) with (calling l2 ++ [f] ++ q).
        rewrite !app_assoc. apply Permutation_app_tail.
        apply Permutation_app_comm.
      * intros Hr. specialize (Hret Hr). discriminate.
  - injection Hstep as <-; simpl.
    destruct (update_split ts i (Calling f)
                (if raises then Failed else Polling) Hi)
      as (l1 & l2 & -> & ->).
    rewrite ?length_insert, ?calling_app, ?sum_list_with_app,
      ?length_app in *; simpl in *.
    assert (Hp : (h ++ [f]) ++ (calling l1 ++ calling l2) ++ q ≡ₚ file_list).
    { rewrite <- Hperm. rewrite <- !app_assoc.
      apply Permutation_app_head. simpl.
      change (f :: calling l1 ++ calling l2 ++ q)
        with ([f] ++ (calling l1 ++ calling l2 ++ q)).
      change (calling l1 ++ f :: calling l2 ++ q)
        with (calling l1 ++ [f] ++ (calling l2 ++ q)).
      rewrite !app_assoc. do 2 apply Permutation_app_tail.
      apply Permutation_app_comm. }
    destruct raises; simpl; rewrite ?app_nil_r;
      repeat split; auto; try lia.
Qed.

Lemma exec_inv (file_list : list string) (schedule : list (nat * bool))
    (st st' : state) :
  exec schedule st = Some st' -> inv file_list st ->
  inv file_list st' /\ (moves_left st' + length schedule <= moves_left st)%nat.
Proof.
  revert st. induction schedule as [|[i raises] schedule IH]; intros st; simpl.
  - intros [= ->] H. split; [done | lia].
  - destruct (step i raises st) as [st1|] eqn:E; [|done].
    intros Hexec Hinv.
    destruct (step_inv _ _ _ _ _ E Hinv) as [Hinv1 Hlt].
    destruct (IH _ Hexec Hinv1) as [Hinv' Hle]. split; [done | lia].
Qed.

Lemma joined_threads (ts : list thread) :
  forallb ended ts = true ->
  calling ts = [] /\ (failures ts + returns ts = length ts)%nat.
Proof.
  unfold failures, returns.
  induction ts as [|t ts IH]; simpl; [done|].
  rewrite andb_true_iff. intros [Ht Hts].
  destruct (IH Hts) as [-> Hn]. destruct t; try done; simpl; split; auto; lia.
Qed.

Lemma not_joined_can_move (st : state) :
  joined st = false -> exists i, is_Some (step i false st).
Proof.
  unfold joined, step. destruct st as [q ts h]; simpl.
  induction ts as [|t ts IH]; simpl; [done|].
  rewrite andb_false_iff. intros [Ht|Hts].
  - exists 0%nat. simpl. destruct t; try done; by destruct q.
  - destruct (IH Hts) as [i Hi]. exists (S i). simpl.
    destruct (ts !! i) as [[| | |]|]; try done; by destruct q.
Qed.

Lemma moves_left_init (file_list : list string) :
  moves_left (init file_list) = (4 * length file_list)%nat.
Proof.
  unfold moves_left, init, pending; simpl.
  assert (H : forall n,
            sum_list_with
              (fun t => match t with Polling => 1 | Calling _ => 2 | _ => 0 end)%nat
              (replicate n Polling) = n).
  { induction n as [|n IHn]; simpl; [done | by rewrite IHn]. }
  rewrite H. lia.
Qed.
End PoolFacts.

(** C8: [run] starts as many threads as there are queued files.  Under
    every schedule of their moves: no file is ever lost or duplicated
    between the queue, the calls in progress and the calls made; the run
    ends within four moves per file and, until every thread has ended,
    some thread can move; and once all threads are joined the queue is
    empty and the files handed to [file_parser_factory_method] are the
    queued files, each as often as it was queued. *)
Theorem every_file_handled_once
    (file_list : list string) (schedule : list (nat * bool)) (st : Pool.state) :
  Pool.exec schedule (Pool.init file_list) = Some st ->
  Pool.handled st ++ PoolView.calling (Pool.threads st) ++ Pool.file_queue st
    ≡ₚ file_list
  /\ (length schedule <= 4 * length file_list)%nat
  /\ if Pool.joined st
     then Pool.handled st ≡ₚ file_list /\ Pool.file_queue st = []
     else exists i, is_Some (Pool.step i false st).
Proof.
  intros Hexec.
  destruct (exec_inv file_list _ _ _ Hexec (inv_init file_list))
    as [(Hperm & Hret & Hfail & Hlen) Hle].
  rewrite moves_left_init in Hle.
  split; [exact Hperm|]. split; [lia|].
  destruct (Pool.joined st) eqn:Hj; [|by apply not_joined_can_move].
  destruct (joined_threads _ Hj) as [Hc Hn].
  rewrite Hc in Hperm. simpl in Hperm.
  assert (Hq : Pool.file_queue st = []).
  { destruct (decide (0 < PoolView.returns (Pool.threads st))%nat) as [Hr|Hr];
      [by apply Hret|].
    apply Permutation_length in Hperm. rewrite length_app in Hperm.
    destruct (Pool.file_queue st); [done|]. simpl in Hperm. lia. }
  split; [|exact Hq]. by rewrite Hq, app_nil_r in Hperm.
Qed.

Lemma every_file_handled_once_witness :
  Pool.exec [(0, false); (1, false); (1, true); (0, false); (0, false)]%nat
    (Pool.init ["a.csv"; "b.txt"])
  = Some (Pool.mk_state [] [Pool.Returned; Pool.Failed] ["b.txt"; "a.csv"])
  /\ ["b.txt"; "a.csv"] ≡ₚ ["a.csv"; "b.txt"].
Proof.
  split; [reflexivity|].
  apply (every_file_handled_once ["a.csv"; "b.txt"]
           [(0, false); (1, false); (1, true); (0, false); (0, false)]%nat
           (Pool.mk_state [] [Pool.Returned; Pool.Failed] ["b.txt"; "a.csv"])).
  reflexivity.
Defined.

(** * Further properties of the code *)

(** ** The file list *)

Lemma split_nonempty (sep : ascii) (s : string) : split sep s <> [].
Proof.
  induction s as [|c s IH]; simpl; [done|].
  case_decide; [done|]. by destruct (split sep s).
Qed.

Lemma join_cons_char (sep : string) (c : ascii) (x : string) (xs : list string) :
  join sep (String c x :: xs) = String c (join sep (x :: xs)).
Proof. by destruct xs. Qed.

Lemma join_split (sep : ascii) (s : string) :
  join (String sep EmptyString) (split sep s) = s.
Proof.
  induction s as [|c s IH]; [done|].
  pose proof (split_nonempty sep s) as Hne.
  cbn [split]. destruct (split sep s) as [|x xs] eqn:E; [done|].
  case_decide as Hc.
  - subst c. change (join (String sep "") ("" :: x :: xs))
      with (String sep (join (String sep "") (x :: xs))).
    by rewrite IH.
  - by rewrite join_cons_char, IH.
Qed.

Lemma split_no_separator (sep : ascii) (s : string) :
  Forall (fun piece => count_char sep piece = 0%nat) (split sep s).
Proof.
  induction s as [|c s IH]; simpl; [by repeat constructor|].
  case_decide as Hc; [by constructor|].
  destruct (split sep s) as [|x xs]; [|inversion_clear IH as [|? ? Hx Hxs]];
    constructor; simpl; rewrite ?decide_False by done; auto.
Qed.

Lemma split_length (sep : ascii) (s : string) :
  length (split sep s) = S (count_char sep s).
Proof.
  induction s as [|c s IH]; simpl; [done|].
  pose proof (split_nonempty sep s) as Hne.
  case_decide; simpl; [by rewrite IH|].
  destruct (split sep s); [done|]. simpl in *. lia.
Qed.

(** X1: a non-empty [--filepath] value always gives a file list: the
    pieces between its commas, one more than it has commas, none holding a
    comma, never an empty list (the [else] of line 33 cannot run), and
    joining them with commas gives the value back. *)
Theorem file_list_round_trip (filepath : string) :
  filepath <> EmptyString ->
  exists file_list,
    file_list_of_args (Some filepath) = Ok file_list
    /\ file_list = split "," filepath
    /\ file_list <> []
    /\ length file_list = S (count_char "," filepath)
    /\ Forall (fun name => count_char "," name = 0%nat) file_list
    /\ join "," file_list = filepath.
Proof.
  intros Hne. exists (split "," filepath).
  split_and!.
  - destruct filepath as [|c s]; [done|]. unfold file_list_of_args.
    pose proof (split_nonempty "," (String c s)).
    by destruct (split "," (String c s)).
  - done.
  - apply split_nonempty.
  - apply split_length.
  - apply split_no_separator.
  - apply join_split.
Qed.

Lemma file_list_round_trip_witness :
  file_list_of_args (Some "a.csv,,b.xml") = Ok ["a.csv"; ""; "b.xml"]
  /\ exists file_list,
       file_list_of_args (Some "a.csv,,b.xml") = Ok file_list
       /\ file_list = split "," "a.csv,,b.xml"
       /\ file_list <> []
       /\ length file_list = S (count_char "," "a.csv,,b.xml")
       /\ Forall (fun name => count_char "," name = 0%nat) file_list
       /\ join "," file_list = "a.csv,,b.xml".
Proof.
  split; [reflexivity|].
  apply (file_list_round_trip "a.csv,,b.xml"). discriminate.
Defined.

(** ** Suffixes and dispatch *)

(** X2: [endswith] holds exactly when the name is some prefix followed by
    the suffix. *)
Theorem endswith_iff_suffix (s suffix : string) :
  endswith s suffix = true <-> exists prefix, s = prefix +:+ suffix.
Proof.
  induction s as [|c s IH]; simpl; rewrite orb_true_iff, bool_decide_eq_true.
  - split.
    + intros [<-|?]; [by exists EmptyString | done].
    + intros [[|? ?] H]; [by left | discriminate].
  - rewrite IH. split.
    + intros [<-|[p ->]]; [by exists EmptyString | by exists (String c p)].
    + intros [[|c' p] H]; [by left|]. simpl in H. injection H as [= <- ->].
      right. by exists p.
Qed.

Lemma endswith_app (prefix suffix : string) :
  endswith (prefix +:+ suffix) suffix = true.
Proof.
  induction prefix as [|c p IH]; simpl.
  - destruct suffix; cbn [endswith]; apply orb_true_iff; left;
      by apply bool_decide_eq_true.
  - by rewrite IH, orb_true_r.
Qed.

Section Worker.
Variable read_csv : string -> option store.


(** X4: the loop over a queue in two parts: the first part is worked off,
    then the second from the aggregate reached; an exception in the first
    part leaves the whole second part queued. *)
Theorem process_queue_app (q1 q2 : list string) (data_list : store) :
  process_queued_files read_csv (q1 ++ q2) data_list =
    match process_queued_files read_csv q1 data_list with
    | (Ok _, (_, data_list1)) => process_queued_files read_csv q2 data_list1
    | (Raise e, (rest, data_list1)) => (Raise e, (rest ++ q2, data_list1))
    end.
Proof.
  revert data_list. induction q1 as [|f q1 IH]; intros dl; simpl; [done|].
  destruct (file_parser_factory_method read_csv f dl); [apply IH | done].
Qed.

Lemma factory_Ok (filename : string) (data_list data_list' : store) :
  file_parser_factory_method read_csv filename data_list = Ok data_list' ->
  data_list' = merge_all (option_list (contribution read_csv filename)) data_list.
Proof.
  unfold file_parser_factory_method, contribution, csv_parser, merge_all.
  destruct (endswith filename ".csv").
  - destruct (read_csv filename); [|done]. by intros [= <-].
  - destruct (endswith filename ".xml"); [by intros [= <-]|].
    destruct (endswith filename ".json"); [by intros [= <-] | done].
Qed.

(** X5: when the loop ends normally the queue is empty and the aggregate
    is the stores of the queued [.csv] files merged in queue order; the
    other files have added nothing. *)
Theorem process_queue_result
    (file_queue rest : list string) (data_list data_list' : store) :
  process_queued_files read_csv file_queue data_list
  = (Ok tt, (rest, data_list')) ->
  rest = []
  /\ data_list' = merge_all (omap (contribution read_csv) file_queue) data_list.
Proof.
  revert data_list. induction file_queue as [|f q IH]; intros dl; simpl.
  - by intros [= <- <-].
  - destruct (file_parser_factory_method read_csv f dl) as [dl1|e] eqn:E;
      [|done].
    intros H. destruct (IH _ H) as [-> ->]. split; [done|].
    apply factory_Ok in E. subst dl1.
    change (omap (contribution read_csv) (f :: q))
      with (match contribution read_csv f with
            | Some y => y :: omap (contribution read_csv) q
            | None => omap (contribution read_csv) q
            end).
    by destruct (contribution read_csv f).
Qed.

(** X6: when the loop ends with an exception, it is the exception of the
    first file whose call raises; the files before it have been worked
    off normally, the files after it are still queued, and the aggregate
    is the one the failing call found. *)
Theorem process_queue_failure
    (file_queue rest : list string) (data_list data_list' : store) (e : exn) :
  process_queued_files read_csv file_queue data_list
  = (Raise e, (rest, data_list')) ->
  exists before filename,
    file_queue = before ++ filename :: rest
    /\ process_queued_files read_csv before data_list = (Ok tt, ([], data_list'))
    /\ file_parser_factory_method read_csv filename data_list' = Raise e.
Proof.
  revert data_list. induction file_queue as [|f q IH]; intros dl; simpl; [done|].
  destruct (file_parser_factory_method read_csv f dl) as [dl1|e1] eqn:E.
  - intros H. destruct (IH _ H) as (before & g & -> & Hb & Hg).
    exists (f :: before), g. simpl. by rewrite E.
  - intros [= <- <- <-]. by exists [], f.
Qed.

(** X7: a queue of [.xml] and [.json] names only is worked off without an
    exception and leaves the aggregate as it was; from the empty aggregate
    the writer then emits a single empty header row. *)
Theorem only_xml_json_writes_empty_header
    (file_queue : list string) (data_list : store) :
  Forall (fun f => endswith f ".xml" = true \/ endswith f ".json" = true)
    file_queue ->
  process_queued_files read_csv file_queue data_list = (Ok tt, ([], data_list))
  /\ (exists final, process_queued_files read_csv file_queue [] = (Ok tt, ([], final))
                    /\ generate_csv final = [[]]).
Proof.
  intros Hall.
  assert (H : forall dl, process_queued_files read_csv file_queue dl
                         = (Ok tt, ([], dl))).
  { induction Hall as [|f q Hf _ IH]; intros dl; simpl; [done|].
    assert (E : file_parser_factory_method read_csv f dl = Ok dl).
    { unfold file_parser_factory_method. destruct Hf as [Hf|Hf].
      - by rewrite (endswith_xml_not_csv _ Hf), Hf.
      - rewrite (endswith_json_not_csv _ Hf), Hf.
        by destruct (endswith f ".xml"). }
    rewrite E. apply IH. }
  split; [apply H|]. exists []. split; [apply H | reflexivity].
Qed.

End Worker.

Lemma process_queue_result_witness :
  merge [] (file_columns [("date", ["Jan 05 2020"])])
  = merge_all
      (omap (contribution (fun _ => Some [("date", ["Jan 05 2020"])]))
         ["a.csv"; "b.xml"]) [].
Proof.
  apply (process_queue_result (fun _ => Some [("date", ["Jan 05 2020"])])
           ["a.csv"; "b.xml"] [] []).
  reflexivity.
Defined.

Lemma process_queue_failure_witness :
  exists before filename,
    ["a.xml"; "b.txt"; "c.csv"] = before ++ filename :: ["c.csv"]
    /\ process_queued_files (fun _ => None) before [] = (Ok tt, ([], []))
    /\ file_parser_factory_method (fun _ => None) filename []
       = Raise (Exception "Error. Cannot parse this type of file.").
Proof.
  apply (process_queue_failure (fun _ => None) ["a.xml"; "b.txt"; "c.csv"]
           ["c.csv"] [] []).
  reflexivity.
Defined.

Lemma only_xml_json_writes_empty_header_witness :
  process_queued_files (fun _ => None) ["a.xml"; "b.json"] [("date", [])]
  = (Ok tt, ([], [("date", [])])).
Proof.
  apply (only_xml_json_writes_empty_header (fun _ => None) ["a.xml"; "b.json"]).
  apply Forall_cons_2; [left; reflexivity|].
  apply Forall_cons_2; [right; reflexivity|].
  apply Forall_nil_2.
Defined.

(** ** More on the normalization *)

Lemma move_column_falsy (src dst k : string) (columns : store) :
  k <> dst -> (k = src \/ truthy (Dict.get k columns) = false) ->
  truthy (Dict.get k (move_column src dst columns)) = false.
Proof.
  intros Hd Hk. rewrite get_move_column.
  destruct (truthy (Dict.get src columns)) eqn:E.
  - case_decide; [done|]. rewrite decide_False by done.
    destruct Hk; [done | done].
  - destruct Hk as [->|Hk]; done.
Qed.

Lemma combine_euro_cents_falsy (k : string) (columns : store) :
  k <> "amount" -> truthy (Dict.get k columns) = false ->
  truthy (Dict.get k (combine_euro_cents columns)) = false.
Proof.
  intros Hk H. rewrite get_combine_euro_cents.
  destruct (_ && _); [|done]. repeat (case_decide; [done|]). done.
Qed.

Lemma combine_euro_cents_pair (columns : store) :
  truthy (Dict.get "euro" (combine_euro_cents columns))
  && truthy (Dict.get "cents" (combine_euro_cents columns)) = false.
Proof.
  rewrite !get_combine_euro_cents.
  destruct (truthy (Dict.get "euro" columns) && truthy (Dict.get "cents" columns))
    eqn:E; [done | exact E].
Qed.

Lemma move_column_pair (src dst : string) (columns : store) :
  dst <> "euro" -> dst <> "cents" ->
  truthy (Dict.get "euro" columns) && truthy (Dict.get "cents" columns) = false ->
  truthy (Dict.get "euro" (move_column src dst columns))
  && truthy (Dict.get "cents" (move_column src dst columns)) = false.
Proof.
  intros H1 H2. rewrite !andb_false_iff. intros [H|H]; [left | right];
    apply move_column_falsy; auto.
Qed.

Lemma normalize_alias_free (raw : store) : alias_free (normalize raw).
Proof.
  unfold alias_free, normalize. split_and!.
  - repeat (apply move_column_pair; [done | done |]).
    apply combine_euro_cents_pair.
  - do 3 (apply move_column_falsy; [done | right]).
    apply move_column_falsy; [done | by left].
  - do 2 (apply move_column_falsy; [done | right]).
    apply move_column_falsy; [done | by left].
  - apply move_column_falsy; [done | right].
    apply move_column_falsy; [done | by left].
  - apply move_column_falsy; [done | by left].
Qed.

(** X8: a store in which no rule applies is left as it is, whatever else
    it holds: in particular a lone ["euro"] or a lone ["cents"] column is
    kept under its name, and so is an alias column that is present but
    empty. *)
Theorem normalize_without_aliases (columns : store) :
  alias_free columns -> normalize columns = columns.
Proof.
  intros (Hec & Hts & Hdr & Hty & Ham). unfold normalize.
  assert (E : combine_euro_cents columns = columns)
    by (unfold combine_euro_cents; by rewrite Hec).
  rewrite E.
  rewrite (move_column_skip "timestamp") by done.
  rewrite (move_column_skip "date_readable") by done.
  rewrite (move_column_skip "type") by done.
  by rewrite (move_column_skip "amounts").
Qed.

Lemma normalize_without_aliases_witness :
  normalize [("euro", ["10"]); ("timestamp", []); ("date", ["Jan 05 2020"])]
  = [("euro", ["10"]); ("timestamp", []); ("date", ["Jan 05 2020"])].
Proof.
  apply (normalize_without_aliases
           [("euro", ["10"]); ("timestamp", []); ("date", ["Jan 05 2020"])]).
  repeat split.
Defined.

(** X9: normalizing twice is normalizing once, and after it no rule
    applies any more. *)
Theorem normalize_idempotent (raw : store) :
  alias_free (normalize raw) /\ normalize (normalize raw) = normalize raw.
Proof.
  pose proof (normalize_alias_free raw) as H. split; [exact H|].
  destruct H as (Hec & Hts & Hdr & Hty & Ham).
  set (c := normalize raw) in *. unfold normalize at 1.
  assert (E : combine_euro_cents c = c)
    by (unfold combine_euro_cents; by rewrite Hec).
  rewrite E.
  rewrite (move_column_skip "timestamp") by done.
  rewrite (move_column_skip "date_readable") by done.
  rewrite (move_column_skip "type") by done.
  by rewrite (move_column_skip "amounts").
Qed.

Lemma get_app_other {V : Type} (k : string) (d1 d2 : list (string * V)) :
  Dict.get k d2 = None -> Dict.get k (d1 ++ d2) = Dict.get k d1.
Proof.
  intros H. induction d1 as [|[k0 v0] d1 IH]; simpl; [done|].
  by case_decide.
Qed.

Lemma get_canonicalize_other (k : string) (columns : store) :
  k <> "date" -> Dict.get k (canonicalize columns) = Dict.get k columns.
Proof.
  intros Hk. unfold canonicalize, dd_getitem.
  destruct (Dict.get "date" columns); rewrite get_set, decide_False by done;
    [done|].
  apply get_app_other. simpl. by rewrite decide_False.
Qed.

(** X10: a column whose name the normalization neither reads nor writes
    passes through [csv_parser]'s rewriting untouched. *)
Theorem passthrough_columns (raw : store) (k : string) :
  k ∉ reserved_names ->
  Dict.get k (normalize raw) = Dict.get k raw
  /\ Dict.get k (file_columns raw) = Dict.get k raw.
Proof.
  unfold reserved_names. rewrite !not_elem_of_cons.
  intros (? & ? & ? & ? & ? & ? & ? & ? & ? & _).
  assert (Hn : Dict.get k (normalize raw) = Dict.get k raw).
  { unfold normalize.
    by rewrite !move_column_other, combine_euro_cents_other. }
  split; [exact Hn|].
  unfold file_columns. by rewrite get_canonicalize_other.
Qed.

Lemma passthrough_columns_witness :
  Dict.get "to" (file_columns [("timestamp", ["Jan 05 2020"]); ("to", ["182"])])
  = Dict.get "to" [("timestamp", ["Jan 05 2020"]); ("to", ["182"])].
Proof.
  apply (passthrough_columns
           [("timestamp", ["Jan 05 2020"]); ("to", ["182"])] "to").
  apply (bool_decide_unpack _). vm_compute. reflexivity.
Defined.

(** X11: a non-empty ["type"] column becomes the ["transaction"] column
    (replacing one the file already had) and the ["type"] key is gone. *)
Theorem type_becomes_transaction (raw : store) (ty : list string) :
  Dict.get "type" raw = Some ty -> ty <> [] ->
  Dict.get "transaction" (normalize raw) = Some ty
  /\ Dict.get "type" (normalize raw) = None.
Proof.
  intros Hty Hne. unfold normalize.
  set (c3 := move_column "date_readable" "date" _).
  assert (H3 : Dict.get "type" c3 = Some ty).
  { subst c3. by rewrite !move_column_other, combine_euro_cents_other. }
  assert (Ht : truthy (Dict.get "type" c3) = true)
    by (rewrite H3; by apply truthy_Some).
  split; rewrite (move_column_other "amounts") by done.
  - rewrite move_column_dst by done. unfold get_list. by rewrite H3.
  - by apply move_column_src.
Qed.

Lemma type_becomes_transaction_witness :
  Dict.get "transaction"
    (normalize [("type", ["add"]); ("transaction", ["old"])]) = Some ["add"].
Proof.
  apply (type_becomes_transaction [("type", ["add"]); ("transaction", ["old"])]
           ["add"]); [reflexivity | discriminate].
Defined.

(** X12: a non-empty ["amounts"] column becomes the ["amount"] column,
    whatever ["amount"] the file had or the euro and cents columns gave,
    and the ["amounts"] key is gone. *)
Theorem amounts_becomes_amount (raw : store) (am : list string) :
  Dict.get "amounts" raw = Some am -> am <> [] ->
  Dict.get "amount" (normalize raw) = Some am
  /\ Dict.get "amounts" (normalize raw) = None.
Proof.
  intros Ham Hne. unfold normalize.
  set (c4 := move_column "type" "transaction" _).
  assert (H4 : Dict.get "amounts" c4 = Some am).
  { subst c4. by rewrite !move_column_other, combine_euro_cents_other. }
  assert (Ht : truthy (Dict.get "amounts" c4) = true)
    by (rewrite H4; by apply truthy_Some).
  split.
  - rewrite move_column_dst by done. unfold get_list. by rewrite H4.
  - by apply move_column_src.
Qed.

Lemma amounts_becomes_amount_witness :
  Dict.get "amount"
    (normalize [("amount", ["1.00"]); ("amounts", ["20.00"])]) = Some ["20.00"].
Proof.
  apply (amounts_becomes_amount [("amount", ["1.00"]); ("amounts", ["20.00"])]
           ["20.00"]); [reflexivity | discriminate].
Defined.

(** X13: with a non-empty ["timestamp"] column and no non-empty
    ["date_readable"] column, the ["date"] column of the normalized store
    is the ["timestamp"] column, replacing a ["date"] column of the file,
    and the ["timestamp"] key is gone. *)
Theorem timestamp_becomes_date (raw : store) (ts : list string) :
  Dict.get "timestamp" raw = Some ts -> ts <> [] ->
  truthy (Dict.get "date_readable" raw) = false ->
  Dict.get "date" (normalize raw) = Some ts
  /\ Dict.get "timestamp" (normalize raw) = None.
Proof.
  intros Hts Hne Hdr. unfold normalize.
  set (c1 := combine_euro_cents raw).
  assert (H1 : Dict.get "timestamp" c1 = Some ts)
    by (subst c1; by rewrite combine_euro_cents_other).
  assert (Ht : truthy (Dict.get "timestamp" c1) = true)
    by (rewrite H1; by apply truthy_Some).
  assert (Hskip : truthy (Dict.get "date_readable"
                            (move_column "timestamp" "date" c1)) = false).
  { rewrite move_column_other by done. subst c1.
    by rewrite combine_euro_cents_other. }
  rewrite (move_column_skip "date_readable") by done.
  split; rewrite (move_column_other "amounts"), (move_column_other "type")
    by done.
  - rewrite move_column_dst by done. unfold get_list. by rewrite H1.
  - by apply move_column_src.
Qed.

Lemma timestamp_becomes_date_witness :
  Dict.get "date"
    (normalize [("date", ["old"]); ("timestamp", ["Jan 05 2020"])])
  = Some ["Jan 05 2020"].
Proof.
  apply (timestamp_becomes_date
           [("date", ["old"]); ("timestamp", ["Jan 05 2020"])] ["Jan 05 2020"]);
    [reflexivity | discriminate | reflexivity].
Defined.

(** ** Stores stay proper dicts *)

Lemma wf_set (k : string) (v : list string) (d : store) :
  Dict.wf d -> Dict.wf (Dict.set k v d).
Proof.
  unfold Dict.wf. intros Hwf. destruct (Dict.get k d) eqn:E.
  - rewrite keys_set_mem; [done|]. unfold Dict.mem. by rewrite E.
  - rewrite keys_set_new by done. apply NoDup_app. split_and!; [done| |].
    + intros x Hx Hk. apply list_elem_of_singleton in Hk. subst x.
      by apply get_None_keys in E.
    + apply NoDup_singleton.
Qed.

Lemma wf_del (k : string) (d : store) : Dict.wf d -> Dict.wf (Dict.del k d).
Proof.
  unfold Dict.wf, Dict.keys, Dict.del. induction d as [|[k0 v0] d IH]; [done|].
  rewrite fmap_cons, NoDup_cons. intros [Hk Hd]. rewrite filter_cons.
  simpl. case_decide; [|by apply IH].
  rewrite fmap_cons, NoDup_cons. split; [|by apply IH]. simpl.
  intros Hin. apply Hk. apply list_elem_of_fmap in Hin as ([k1 v1] & -> & Hin).
  apply list_elem_of_filter in Hin as [_ Hin].
  apply list_elem_of_fmap. by exists (k1, v1).
Qed.

Lemma wf_move_column (src dst : string) (columns : store) :
  Dict.wf columns -> Dict.wf (move_column src dst columns).
Proof.
  intros H. unfold move_column. destruct (truthy _); [|done].
  by apply wf_del, wf_set.
Qed.

Lemma wf_normalize (raw : store) : Dict.wf raw -> Dict.wf (normalize raw).
Proof.
  intros H. unfold normalize. do 4 apply wf_move_column.
  unfold combine_euro_cents. destruct (_ && _); [|done].
  by do 2 apply wf_del; apply wf_set.
Qed.

Lemma wf_canonicalize (columns : store) :
  Dict.wf columns -> Dict.wf (canonicalize columns).
Proof.
  intros H. unfold canonicalize, dd_getitem.
  destruct (Dict.get "date" columns) eqn:E; apply wf_set; [done|].
  unfold Dict.wf, Dict.keys. rewrite fmap_app. apply NoDup_app.
  split_and!; [done| |apply NoDup_singleton].
  intros x Hx Hk. apply list_elem_of_singleton in Hk. subst x.
  by apply get_None_keys in E.
Qed.

(** X14: a store with one entry per column name keeps that through the
    normalization, the date canonicalization and the merge: the per-file
    store and the aggregate have no column name twice. *)
Theorem stores_keep_unique_keys (raw data_list : store) :
  Dict.wf raw -> Dict.wf data_list ->
  Dict.wf (normalize raw)
  /\ Dict.wf (file_columns raw)
  /\ Dict.wf (merge data_list (file_columns raw)).
Proof.
  intros Hraw Hdl.
  assert (Hf : Dict.wf (file_columns raw))
    by (by apply wf_canonicalize, wf_normalize).
  split_and!; [by apply wf_normalize | done |].
  destruct data_list as [|kv dl]; [exact Hf|].
  unfold Dict.wf. by rewrite keys_merge_nonempty.
Qed.

Lemma stores_keep_unique_keys_witness :
  Dict.wf (merge [("date", ["05-01-2020"])]
             (file_columns [("timestamp", ["Jan 06 2020"]); ("to", ["182"])])).
Proof.
  apply (stores_keep_unique_keys
           [("timestamp", ["Jan 06 2020"]); ("to", ["182"])]
           [("date", ["05-01-2020"])]);
    apply (bool_decide_unpack _); vm_compute; reflexivity.
Defined.

(** ** More on the merge *)

Lemma append_absent (i : string) (j : list string) (d : store) :
  i ∉ Dict.keys d ->
  (fun kv : string * list string =>
     if decide (kv.1 = i) then (kv.1, kv.2 ++ j) else kv) <$> d = d.
Proof.
  unfold Dict.keys. induction d as [|[k v] d IH]; [done|].
  rewrite !fmap_cons, not_elem_of_cons. simpl. intros [Hk Hd].
  rewrite decide_False by done. f_equal. by apply IH.
Qed.

Lemma extend_as_map (i : string) (j : list string) (d : store) :
  Dict.wf d ->
  extend i j d
  = (fun kv : string * list string =>
       if decide (kv.1 = i) then (kv.1, kv.2 ++ j) else kv) <$> d.
Proof.
  unfold Dict.wf, Dict.keys. induction d as [|[k v] d IH]; [done|].
  rewrite fmap_cons, NoDup_cons. simpl. intros [Hk Hd].
  destruct (decide (i = k)) as [->|Hne].
  - rewrite decide_True by done. f_equal. symmetry. by apply append_absent.
  - rewrite decide_False by done. f_equal. by apply IH.
Qed.

Lemma merge_item_as_map (i : string) (j : list string) (d : store) :
  Dict.wf d ->
  merge_item d (i, j)
  = (fun kv : string * list string =>
       if decide (kv.1 = i) then (kv.1, kv.2 ++ j) else kv) <$> d.
Proof.
  intros Hwf. unfold merge_item. destruct (Dict.mem i d) eqn:E.
  - by apply extend_as_map.
  - symmetry. apply append_absent. rewrite <- mem_keys. by rewrite E.
Qed.

Lemma fold_merge_as_map (columns d : store) :
  Dict.wf d -> Dict.wf columns ->
  fold_left merge_item columns d
  = (fun kv : string * list string => (kv.1, kv.2 ++ get_list kv.1 columns))
      <$> d.
Proof.
  revert d. induction columns as [|[i j] c IH]; intros d Hd Hc.
  - simpl. symmetry. rewrite <- (list_fmap_id d) at 2.
    apply list_fmap_ext. intros _ [k v] _. simpl.
    unfold get_list. simpl. by rewrite app_nil_r.
  - unfold Dict.wf, Dict.keys in Hc. rewrite fmap_cons, NoDup_cons in Hc.
    destruct Hc as [Hi Hc]. simpl in Hi.
    change (fold_left merge_item ((i, j) :: c) d)
      with (fold_left merge_item c (merge_item d (i, j))).
    rewrite IH; [|unfold Dict.wf; by rewrite keys_merge_item | done].
    rewrite merge_item_as_map by done. rewrite <- list_fmap_compose.
    apply list_fmap_ext. intros _ [k v] _. simpl. unfold get_list. simpl.
    destruct (decide (k = i)) as [->|Hne]; simpl; [|done].
    apply get_None_keys in Hi. by rewrite Hi, app_nil_r.
Qed.

Lemma merge_as_map (data_list columns : store) :
  Dict.wf data_list -> Dict.wf columns -> data_list <> [] ->
  merge data_list columns
  = (fun kv : string * list string => (kv.1, kv.2 ++ get_list kv.1 columns))
      <$> data_list.
Proof.
  intros Hd Hc Hne. unfold merge. destruct data_list; [done|].
  by apply fold_merge_as_map.
Qed.

(** X15: merging a per-file store into a non-empty aggregate is
    column-wise concatenation: the aggregate keeps its columns in their
    order, each followed by the file's values under the same name
    (nothing when the file has no such column). *)
Theorem merge_is_columnwise_append (data_list columns : store) :
  Dict.wf data_list -> Dict.wf columns -> data_list <> [] ->
  merge data_list columns
  = (fun kv : string * list string => (kv.1, kv.2 ++ get_list kv.1 columns))
      <$> data_list.
Proof.
  intros Hd Hc Hne. unfold merge. destruct data_list; [done|].
  by apply fold_merge_as_map.
Qed.

Lemma merge_is_columnwise_append_witness :
  merge [("date", ["05-01-2020"]); ("amount", ["10.00"])]
        [("amount", ["20.00"]); ("fee", ["1"])]
  = [("date", ["05-01-2020"]); ("amount", ["10.00"; "20.00"])].
Proof.
  apply (merge_is_columnwise_append
           [("date", ["05-01-2020"]); ("amount", ["10.00"])]
           [("amount", ["20.00"]); ("fee", ["1"])]);
    [apply (bool_decide_unpack _); vm_compute; reflexivity
    |apply (bool_decide_unpack _); vm_compute; reflexivity
    |discriminate].
Defined.

Lemma get_Some_elem {V : Type} (k : string) (v : V) (d : list (string * V)) :
  Dict.get k d = Some v -> (k, v) ∈ d.
Proof.
  induction d as [|[k0 v0] d IH]; simpl; [done|].
  case_decide as Hk;
    [intros [= <-]; subst; by left | intros Hg; right; by apply IH].
Qed.

(** X16: when every column of the aggregate has [n] values, every column
    of the file has [m] values and the file has all the aggregate's
    columns, every column of the merged aggregate has [n + m] values: the
    rows of the files stay aligned. *)
Theorem merge_keeps_rows_aligned (data_list columns : store) (n m : nat) :
  Dict.wf data_list -> Dict.wf columns -> data_list <> [] ->
  rectangular n data_list -> rectangular m columns ->
  Dict.keys data_list ⊆ Dict.keys columns ->
  rectangular (n + m) (merge data_list columns).
Proof.
  intros Hd Hc Hne Hn Hm Hsub.
  rewrite merge_as_map by done.
  unfold rectangular in *. rewrite Forall_fmap.
  rewrite Forall_forall in Hn, Hm. apply Forall_forall.
  intros [k v] Hkv. simpl. rewrite length_app.
  pose proof (Hn _ Hkv) as Hv. simpl in Hv. rewrite Hv. f_equal.
  assert (Hk : k ∈ Dict.keys columns).
  { apply Hsub. unfold Dict.keys. apply list_elem_of_fmap. by exists (k, v). }
  apply mem_keys in Hk. unfold Dict.mem, get_list in *.
  destruct (Dict.get k columns) as [w|] eqn:E; [|done].
  apply get_Some_elem in E. exact (Hm _ E).
Qed.

Lemma merge_keeps_rows_aligned_witness :
  rectangular (1 + 2)
    (merge [("date", ["05-01-2020"]); ("amount", ["10.00"])]
           [("amount", ["20.00"; "30.00"]);
            ("date", ["06-01-2020"; "07-01-2020"])]).
Proof.
  apply (merge_keeps_rows_aligned
           [("date", ["05-01-2020"]); ("amount", ["10.00"])]
           [("amount", ["20.00"; "30.00"]);
            ("date", ["06-01-2020"; "07-01-2020"])] 1 2).
  - apply (bool_decide_unpack _); vm_compute; reflexivity.
  - apply (bool_decide_unpack _); vm_compute; reflexivity.
  - discriminate.
  - repeat constructor.
  - repeat constructor.
  - apply (bool_decide_unpack _); vm_compute; reflexivity.
Defined.

(** X17: over any number of files merged in turn into a first store,
    each column of the first store ends up followed by the files' values
    under its name, file after file in merge order; no column is added. *)
Theorem merge_all_concatenates (first : store) (stores : list store) (k : string) :
  first <> [] -> Forall Dict.wf stores ->
  Dict.keys (merge_all stores first) = Dict.keys first
  /\ Dict.get k (merge_all stores first)
     = (fun v => v ++ concat (get_list k <$> stores)) <$> Dict.get k first.
Proof.
  intros Hne Hwf. revert first Hne.
  induction Hwf as [|c stores Hc _ IH]; intros first Hne.
  - split; [done|]. simpl. destruct (Dict.get k first); simpl; [|done].
    by rewrite app_nil_r.
  - unfold merge_all in *. cbn [fold_left].
    assert (Hk : Dict.keys (merge first c) = Dict.keys first)
      by by apply keys_merge_nonempty.
    assert (Hne' : merge first c <> []).
    { intros E. rewrite E in Hk. by destruct first. }
    destruct (IH _ Hne') as [IHk IHg]. split; [by rewrite IHk|].
    rewrite IHg. unfold merge. destruct first as [|kv d]; [done|].
    cbn [Dict.is_empty]. rewrite get_fold_merge by done.
    rewrite fmap_cons. cbn [concat].
    destruct (Dict.get k (kv :: d)); simpl; [|done]. by rewrite app_assoc.
Qed.

Lemma merge_all_concatenates_witness :
  Dict.get "date"
    (merge_all [[("date", ["06-01-2020"])]; [("fee", ["1"])];
                [("date", ["07-01-2020"])]]
       [("date", ["05-01-2020"])])
  = (fun v => v ++ concat (get_list "date" <$>
                [[("date", ["06-01-2020"])]; [("fee", ["1"])];
                 [("date", ["07-01-2020"])]]))
      <$> Dict.get "date" [("date", ["05-01-2020"])].
Proof.
  apply (merge_all_concatenates [("date", ["05-01-2020"])]
           [[("date", ["06-01-2020"])]; [("fee", ["1"])];
            [("date", ["07-01-2020"])]] "date").
  - discriminate.
  - repeat (apply Forall_cons_2;
            [apply (bool_decide_unpack _); vm_compute; reflexivity|]).
    apply Forall_nil_2.
Defined.

(** ** Canonical dates parse back *)

Lemma m_bind_head {A B : Type} (m : matcher A) (f : A -> matcher B)
    (s s' : string) (a : A) (y : B * string) :
  head (m s) = Some (a, s') -> head (f a s') = Some y ->
  head (m_bind m f s) = Some y.
Proof.
  unfold m_bind. destruct (m s) as [|[a0 s0] l]; [done|].
  intros [= -> ->]. simpl. by destruct (f a s').
Qed.

Lemma re_d_pad2 (d : Z) (rest : string) :
  (1 <= d <= 31)%Z -> head (re_d (pad2 d +:+ rest)) = Some (d, rest).
Proof.
  intros Hd. replace d with (Z.of_nat (Z.to_nat d)) by lia.
  assert (Hn : (1 <= Z.to_nat d <= 31)%nat) by lia.
  generalize dependent (Z.to_nat d). clear. intros n Hn.
  do 32 (destruct n as [|n]; [first [lia | reflexivity]|]). lia.
Qed.

Lemma re_m_pad2 (m : Z) (rest : string) :
  (1 <= m <= 12)%Z -> head (re_m (pad2 m +:+ rest)) = Some (m, rest).
Proof.
  intros Hm. replace m with (Z.of_nat (Z.to_nat m)) by lia.
  assert (Hn : (1 <= Z.to_nat m <= 12)%nat) by lia.
  generalize dependent (Z.to_nat m). clear. intros n Hn.
  do 13 (destruct n as [|n]; [first [lia | reflexivity]|]). lia.
Qed.

Lemma digit_char_digit (n : Z) :
  is_digit (digit_char n) = true /\ digit (digit_char n) = (n mod 10)%Z.
Proof.
  assert (H : forall k, (k < 10)%nat ->
            is_digit (ascii_of_nat (code "0" + k)) = true
            /\ digit (ascii_of_nat (code "0" + k)) = Z.of_nat k).
  { intros k Hk. do 10 (destruct k as [|k]; [split; reflexivity|]). lia. }
  pose proof (Z.mod_pos_bound n 10 eq_refl) as Hb.
  destruct (H (Z.to_nat (n mod 10))) as [H1 H2]; [lia|].
  unfold digit_char. split; [exact H1|]. rewrite H2. lia.
Qed.

Lemma re_Y_pad4 (y : Z) (rest : string) :
  (0 <= y <= 9999)%Z -> head (re_Y (pad4 y +:+ rest)) = Some (y, rest).
Proof.
  intros Hy.
  change (pad4 y +:+ rest)
    with (String (digit_char (y / 100 / 10))
            (String (digit_char (y / 100))
               (String (digit_char (y / 10)) (String (digit_char y) rest)))).
  unfold re_Y.
  destruct (digit_char_digit (y / 100 / 10)) as [Ha Va].
  destruct (digit_char_digit (y / 100)) as [Hb Vb].
  destruct (digit_char_digit (y / 10)) as [Hc Vc].
  destruct (digit_char_digit y) as [Hd Vd].
  unfold m_bind, m_char, m_ret. rewrite Ha. cbn [flat_map app].
  rewrite Hb. cbn [flat_map app]. rewrite Hc. cbn [flat_map app].
  rewrite Hd. cbn [flat_map app head]. do 2 f_equal.
  rewrite Va, Vb, Vc, Vd. clear -Hy. Z.div_mod_to_equations. lia.
Qed.

Lemma strptime_valid (row : string) (fmt : list directive) (d : date) :
  strptime row fmt = Some d -> valid_date d = true.
Proof.
  unfold strptime. destruct (regex fmt _ row) as [|[d0 rest] l]; [done|].
  destruct rest; [|done]. destruct (valid_date d0) eqn:E; [|done].
  by intros [= <-].
Qed.

Lemma strptime_strftime (d : date) :
  valid_date d = true -> strptime (strftime d) fmt_d_m_Y = Some d.
Proof.
  intros Hv. unfold strptime.
  assert (Hr : (1 <= year d <= 9999 /\ 1 <= month d <= 12
                /\ 1 <= day d <= 31)%Z).
  { unfold valid_date in Hv. rewrite !andb_true_iff, !Z.leb_le in Hv.
    assert (days_in_month (year d) (month d) <= 31)%Z.
    { unfold days_in_month.
      repeat match goal with
             | |- context [match ?x with _ => _ end] => destruct x
             end; lia. }
    lia. }
  destruct Hr as (Hy & Hm & Hd).
  assert (H : head (regex fmt_d_m_Y (mk_date 1900 1 1) (strftime d))
              = Some (d, EmptyString)).
  { unfold fmt_d_m_Y, strftime. cbn [regex].
    eapply m_bind_head; [by apply re_d_pad2|].
    eapply m_bind_head; [reflexivity|].
    eapply m_bind_head; [by apply re_m_pad2|].
    eapply m_bind_head; [reflexivity|].
    eapply m_bind_head.
    - apply (re_Y_pad4 (year d) EmptyString). lia.
    - by destruct d. }
  destruct (regex fmt_d_m_Y _ (strftime d)) as [|[d0 rest] l]; [done|].
  injection H as [= -> ->]. by rewrite Hv.
Qed.

Lemma canonical_date_strftime (d : date) :
  valid_date d = true -> canonical_date (strftime d) = Some (strftime d).
Proof.
  intros Hv. pose proof (strptime_strftime d Hv) as H3.
  unfold canonical_date, date_formats. cbn [first_parse].
  destruct (strptime (strftime d) fmt_b_d_Y) as [d1|] eqn:E1.
  { destruct (proj1 (formats_exclusive _ d1) E1) as [_ E]. congruence. }
  destruct (strptime (strftime d) fmt_d_b_Y) as [d2|] eqn:E2.
  { pose proof (proj2 (formats_exclusive _ d2) E2). congruence. }
  by rewrite H3.
Qed.

Lemma canonical_date_valid (row out : string) :
  canonical_date row = Some out ->
  exists d, valid_date d = true /\ out = strftime d.
Proof.
  unfold canonical_date, date_formats. cbn [first_parse].
  destruct (strptime row fmt_b_d_Y) as [d1|] eqn:E1;
    [|destruct (strptime row fmt_d_b_Y) as [d2|] eqn:E2;
      [|destruct (strptime row fmt_d_m_Y) as [d3|] eqn:E3]];
    simpl; intros [= <-]; eexists; split; try reflexivity;
    by eapply strptime_valid.
Qed.



Lemma canonical_dates_omap (rows : list string) :
  canonical_dates rows = omap canonical_date rows.
Proof. apply (canonical_dates_from rows []). Qed.

Lemma canonical_dates_fixed (rows : list string) :
  canonical_dates (canonical_dates rows) = canonical_dates rows.
Proof.
  rewrite !canonical_dates_omap.
  induction rows as [|row rows IH]; [done|].
  change (omap canonical_date (row :: rows))
    with (match canonical_date row with
          | Some y => y :: omap canonical_date rows
          | None => omap canonical_date rows
          end).
  destruct (canonical_date row) as [out|] eqn:E; [|exact IH].
  apply canonical_date_valid in E as (d & Hv & ->).
  change (omap canonical_date (strftime d :: omap canonical_date rows))
    with (match canonical_date (strftime d) with
          | Some y => y :: omap canonical_date (omap canonical_date rows)
          | None => omap canonical_date (omap canonical_date rows)
          end).
  by rewrite canonical_date_strftime, IH.
Qed.

Lemma set_same (k : string) (v : list string) (d : store) :
  Dict.get k d = Some v -> Dict.set k v d = d.
Proof.
  induction d as [|[k0 v0] d IH]; simpl; [done|].
  case_decide as Hk; [by intros [= ->]; subst | intros H; by rewrite IH].
Qed.


(** X20: the canonical dates of rows put one after the other are the
    canonical dates of each part one after the other, and there are never
    more of them than rows. *)
Theorem canonical_dates_app (rows1 rows2 : list string) :
  canonical_dates (rows1 ++ rows2)
  = canonical_dates rows1 ++ canonical_dates rows2
  /\ (length (canonical_dates rows1) <= length rows1)%nat.
Proof.
  rewrite !canonical_dates_omap. split.
  - induction rows1 as [|row rows1 IH]; [done|].
    rewrite <- app_comm_cons.
    change (omap canonical_date (row :: rows1 ++ rows2))
      with (match canonical_date row with
            | Some y => y :: omap canonical_date (rows1 ++ rows2)
            | None => omap canonical_date (rows1 ++ rows2)
            end).
    change (omap canonical_date (row :: rows1))
      with (match canonical_date row with
            | Some y => y :: omap canonical_date rows1
            | None => omap canonical_date rows1
            end).
    rewrite IH. by destruct (canonical_date row).
  - induction rows1 as [|row rows1 IH]; [done|].
    change (omap canonical_date (row :: rows1))
      with (match canonical_date row with
            | Some y => y :: omap canonical_date rows1
            | None => omap canonical_date rows1
            end).
    destruct (canonical_date row); simpl; lia.
Qed.


(** ** More on the written rows *)

Lemma generate_csv_as_rows (data_list : store) :
  generate_csv data_list
  = Dict.keys data_list
    :: ((fun r => (fun k => field (get_list k data_list !! r))
                    <$> Dict.keys data_list)
          <$> seq 0 (max_length ((fun k => get_list k data_list)
                                   <$> Dict.keys data_list))).
Proof.
  unfold generate_csv. f_equal.
  rewrite zip_longest_rows, <- list_fmap_compose.
  apply list_fmap_ext. intros _ r _. simpl.
  by rewrite <- !list_fmap_compose.
Qed.

(** X22: whatever the lengths of the sequences, every written row,
    header included, has one field per key of the aggregate, and the file
    has one row more than the longest sequence has values. *)
Theorem generate_csv_widths (data_list : store) :
  Forall (fun row => length row = length (Dict.keys data_list))
    (generate_csv data_list)
  /\ length (generate_csv data_list)
     = S (max_length ((fun k => get_list k data_list) <$> Dict.keys data_list)).
Proof.
  rewrite generate_csv_as_rows. split.
  - apply Forall_cons_2; [done|]. apply Forall_fmap, Forall_forall.
    intros r _. simpl. by rewrite length_fmap.
  - simpl. by rewrite length_fmap, length_seq.
Qed.

Lemma get_elem_wf {V : Type} (k : string) (v : V) (d : list (string * V)) :
  Dict.wf d -> (k, v) ∈ d -> Dict.get k d = Some v.
Proof.
  unfold Dict.wf, Dict.keys. induction d as [|[k0 v0] d IH]; [by intros _ ?%elem_of_nil|].
  rewrite fmap_cons, NoDup_cons. simpl. intros [Hk Hd] Hin.
  apply elem_of_cons in Hin as [[= -> ->]|Hin]; [by rewrite decide_True|].
  rewrite decide_False; [by apply IH|].
  intros ->. apply Hk. apply list_elem_of_fmap. by exists (k0, v).
Qed.

Lemma max_length_all {A : Type} (its : list (list A)) (n : nat) :
  its <> [] -> Forall (fun it => length it = n) its -> max_length its = n.
Proof.
  intros Hne Hall. induction Hall as [|it its Hit Hall IH]; [done|].
  change (max_length (it :: its)) with (Nat.max (length it) (max_length its)).
  destruct its as [|it' its']; [simpl; lia|]. rewrite IH by done. lia.
Qed.

(** X23: when the aggregate has no key twice and all its sequences have
    [n] values, the file has the header and [n] rows without any padding:
    column [c] read down the rows is exactly the sequence of the [c]-th
    key, so the aggregate can be read back from the file. *)
Theorem aligned_aggregate_round_trip
    (data_list : store) (n c : nat) (k : string) (v : list string) :
  Dict.wf data_list -> rectangular n data_list ->
  data_list !! c = Some (k, v) ->
  exists header rows,
    generate_csv data_list = header :: rows
    /\ length rows = n
    /\ header !! c = Some k
    /\ column c rows = v.
Proof.
  intros Hwf Hrect Hc. rewrite generate_csv_as_rows.
  set (cols := (fun k => get_list k data_list) <$> Dict.keys data_list).
  assert (Hn : max_length cols = n).
  { apply max_length_all.
    - subst cols. unfold Dict.keys. by destruct data_list.
    - subst cols. unfold Dict.keys. rewrite <- list_fmap_compose.
      apply Forall_fmap, Forall_forall. intros [k0 v0] Hin. simpl.
      unfold get_list. rewrite (get_elem_wf k0 v0) by done.
      unfold rectangular in Hrect. rewrite Forall_forall in Hrect.
      exact (Hrect _ Hin). }
  assert (Hv : length v = n).
  { unfold rectangular in Hrect. rewrite Forall_forall in Hrect.
    apply (Hrect (k, v)). by eapply list_elem_of_lookup_2. }
  assert (Hk : Dict.keys data_list !! c = Some k)
    by (unfold Dict.keys; by rewrite list_lookup_fmap, Hc).
  eexists _, _. split; [reflexivity|]. rewrite Hn.
  split_and!; [by rewrite length_fmap, length_seq | done |].
  unfold column. rewrite <- list_fmap_compose.
  transitivity ((fun r => field (v !! r)) <$> seq 0 n).
  - apply list_fmap_ext. intros _ r _. simpl.
    rewrite list_lookup_fmap, Hk. simpl. unfold get_list.
    rewrite (get_elem_wf k v); [done | done |].
    by eapply list_elem_of_lookup_2.
  - rewrite padded_column by lia. rewrite Hv, Nat.sub_diag. simpl.
    apply app_nil_r.
Qed.

Lemma aligned_aggregate_round_trip_witness :
  exists header rows,
    generate_csv [("date", ["05-01-2020"; "06-01-2020"]);
                  ("amount", ["10.00"; "20.00"])]
    = header :: rows
    /\ length rows = 2%nat
    /\ header !! 1%nat = Some "amount"
    /\ column 1 rows = ["10.00"; "20.00"].
Proof.
  apply (aligned_aggregate_round_trip
           [("date", ["05-01-2020"; "06-01-2020"]);
            ("amount", ["10.00"; "20.00"])] 2 1 "amount" ["10.00"; "20.00"]).
  - apply (bool_decide_unpack _); vm_compute; reflexivity.
  - repeat constructor.
  - reflexivity.
Defined.

(** ** More on the worker threads *)

Section PoolMore.
Import Pool PoolView.

Lemma step_monotone (i : nat) (raises : bool) (st st' : state) :
  step i raises st = Some st' ->
  file_queue st' `suffix_of` file_queue st
  /\ handled st `prefix_of` handled st'
  /\ length (threads st') = length (threads st)
  /\ (forall j t, threads st !! j = Some t -> ended t = true ->
                  threads st' !! j = Some t).
Proof.
  unfold step. destruct st as [q ts h]; simpl.
  destruct (ts !! i) as [t|] eqn:Hi; [|done].
  assert (Hkeep : forall t' j t0, ts !! j = Some t0 -> ended t0 = true ->
                    ended t = false -> <[i := t']> ts !! j = Some t0).
  { intros t' j t0 Hj Ht0 Ht. rewrite list_lookup_insert_ne; [done|].
    intros ->. rewrite Hi in Hj. injection Hj as ->. congruence. }
  destruct t as [|f| |]; try done.
  - destruct q as [|f q]; intros [= <-]; simpl; rewrite length_insert;
      split_and!; try done; try (intros j t0 ? ?; by apply Hkeep).
    by apply suffix_cons_r.
  - intros [= <-]; simpl; rewrite length_insert.
    split_and!; try done; try (intros j t0 ? ?; by apply Hkeep).
    by apply prefix_app_r.
Qed.
End PoolMore.

(** X24: along every schedule the queue only loses files from its front,
    the list of calls made only grows at its end, the number of threads is
    fixed, and a thread that has returned or failed stays so: no file is
    put back, and an exception costs the pool that thread for good. *)
Theorem pool_never_goes_back
    (schedule : list (nat * bool)) (st st' : Pool.state) :
  Pool.exec schedule st = Some st' ->
  Pool.file_queue st' `suffix_of` Pool.file_queue st
  /\ Pool.handled st `prefix_of` Pool.handled st'
  /\ length (Pool.threads st') = length (Pool.threads st)
  /\ (forall j t, Pool.threads st !! j = Some t -> Pool.ended t = true ->
                  Pool.threads st' !! j = Some t).
Proof.
  revert st. induction schedule as [|[i raises] schedule IH]; intros st; simpl.
  - intros [= ->]. by split_and!.
  - destruct (Pool.step i raises st) as [st1|] eqn:E; [|done].
    intros H. destruct (IH _ H) as (Hq & Hh & Hl & He).
    destruct (step_monotone _ _ _ _ E) as (Hq1 & Hh1 & Hl1 & He1).
    split_and!.
    + by etrans.
    + by etrans.
    + congruence.
    + intros j t Hj Ht. apply He; [|done]. by apply He1.
Qed.

Lemma pool_never_goes_back_witness :
  ["c.csv"] `suffix_of` ["a.csv"; "b.txt"; "c.csv"].
Proof.
  apply (pool_never_goes_back [(0, false); (1, false); (1, true)]%nat
           (Pool.init ["a.csv"; "b.txt"; "c.csv"])
           (Pool.mk_state ["c.csv"]
              [Pool.Calling "a.csv"; Pool.Failed; Pool.Polling] ["b.txt"])).
  reflexivity.
Defined.
